(** * JTOK: a statically allocated JSON tokenizer, modelled from its C sources

    A shallow embedding of [JTOK/src/jtok.c] and [JTOK/src/jtok_object.c].

    - C strings are [string]s read up to their first NUL byte.
    - The caller's token array is a [list jtok_tkn_t]; a pointer into it is an
      index, and an access outside the array (undefined behaviour in C) is the
      outcome [Fault].
    - The parse context is passed from state to state; the routines return
      their status together with the context they leave.
    - The header that declares the widths of the token fields is not part of
      the sources at hand: positions and indices are unbounded [Z].  The
      narrow integer types that [jtok.c] names itself ([uint_least16_t],
      [uint_least64_t], the [unsigned int] pool size of [jtok_new_parser])
      have their wrap-around written out.
    - The string, primitive and array parsers are not part of the sources at
      hand: the object parser is modelled over any three routines, and the
      string and primitive parsers of the specification are used where a
      whole text is parsed. *)

From Stdlib Require Import ZArith List String Ascii Bool Lia.
Import ListNotations.

Local Open Scope string_scope.
Local Open Scope Z_scope.

(** ** Characters and C strings *)

Definition NUL : ascii := "000"%char.
Definition dquote : ascii := "034"%char.
Definition backslash : ascii := "092"%char.
Definition TAB : ascii := "009"%char.
Definition LF : ascii := "010"%char.
Definition VT : ascii := "011"%char.
Definition FF : ascii := "012"%char.
Definition CR : ascii := "013"%char.

(** [json[i]]: the byte at offset [i]; the terminating NUL is read at and
    after the end of the text. *)
Definition char_at (s : string) (i : Z) : ascii :=
  if i <? 0 then NUL
  else match String.get (Z.to_nat i) s with
       | Some c => c
       | None => NUL
       end.

(** [strlen]: the number of bytes before the first NUL. *)
Fixpoint strlen (s : string) : nat :=
  match s with
  | EmptyString => O
  | String c s' => if Ascii.eqb c NUL then O else S (strlen s')
  end.

(** [&s[n]]: the C string that starts [n] bytes into [s]. *)
Fixpoint string_from (n : nat) (s : string) : string :=
  match n, s with
  | O, _ => s
  | S n', String _ s' => string_from n' s'
  | S _, EmptyString => EmptyString
  end.

Definition head_char (s : string) : ascii :=
  match s with
  | EmptyString => NUL
  | String c _ => c
  end.

Definition tail_string (s : string) : string :=
  match s with
  | EmptyString => EmptyString
  | String _ s' => s'
  end.

(** [strncmp(s1, s2, n) == 0]: the first [n] bytes agree, or the strings
    agree up to and including a common NUL met earlier. *)
Fixpoint strncmp_eq (s1 s2 : string) (n : nat) : bool :=
  match n with
  | O => true
  | S n' =>
      let c1 := head_char s1 in
      let c2 := head_char s2 in
      if Ascii.eqb c1 c2
      then if Ascii.eqb c1 NUL then true
           else strncmp_eq (tail_string s1) (tail_string s2) n'
      else false
  end.

(** [isspace] of the C locale: space, TAB, LF, VT, FF, CR. *)
Definition isspace (c : ascii) : bool :=
  let n := N_of_ascii c in
  (N.eqb n 32 || (N.leb 9 n && N.leb n 13))%bool.

(** ** The token model *)

Inductive JTOK_TYPE_t : Type :=
| JTOK_PRIMITIVE
| JTOK_OBJECT
| JTOK_ARRAY
| JTOK_STRING
| JTOK_UNASSIGNED_TOKEN.

Definition JTOK_TYPE_eqb (a b : JTOK_TYPE_t) : bool :=
  match a, b with
  | JTOK_PRIMITIVE, JTOK_PRIMITIVE
  | JTOK_OBJECT, JTOK_OBJECT
  | JTOK_ARRAY, JTOK_ARRAY
  | JTOK_STRING, JTOK_STRING
  | JTOK_UNASSIGNED_TOKEN, JTOK_UNASSIGNED_TOKEN => true
  | _, _ => false
  end.

Inductive JTOK_PARSE_STATUS_t : Type :=
| JTOK_PARSE_STATUS_OK
| JTOK_PARSE_STATUS_UNKNOWN_ERROR
| JTOK_PARSE_STATUS_NOMEM
| JTOK_PARSE_STATUS_INVAL
| JTOK_PARSE_STATUS_NULL_PARAM
| JTOK_PARSE_STATUS_PARTIAL_TOKEN
| JTOK_PARSE_STATUS_KEY_NO_VAL
| JTOK_PARSE_STATUS_COMMA_NO_KEY
| JTOK_PARSE_STATUS_OBJECT_INVALID_PARENT
| JTOK_PARSE_STATUS_INVALID_PRIMITIVE
| JTOK_PARSE_STATUS_NON_OBJECT
| JTOK_PARSE_STATUS_INVALID_START
| JTOK_PARSE_STATUS_INVALID_END
| JTOK_PARSE_STATUS_OBJ_NOKEY
| JTOK_STATUS_MIXED_ARRAY
| JTOK_PARSE_STATUS_ARRAY_SEPARATOR
| JTOK_PARSE_STATUS_STRAY_COMMA
| JTOK_PARSE_STATUS_VAL_NO_COLON
| JTOK_PARSE_STATUS_KEY_MULTIPLE_VAL
| JTOK_PARSE_STATUS_INVALID_PARENT
| JTOK_PARSE_STATUS_VAL_NO_COMMA
| JTOK_PARSE_STATUS_NON_ARRAY
| JTOK_PARSE_STATUS_EMPTY_KEY
| JTOK_PARSE_STATUS_NEST_DEPTH_EXCEEDED.

Definition status_is_ok (st : JTOK_PARSE_STATUS_t) : bool :=
  match st with
  | JTOK_PARSE_STATUS_OK => true
  | _ => false
  end.

(** Modelled from the spec: the sentinel indices of [inc/jtok.h], which is
    not part of the sources at hand ("sentinel index values distinguishable
    from any legal index"); legal indices are not negative. *)
Definition INVALID_ARRAY_INDEX : Z := -1.
Definition NO_PARENT_IDX : Z := -1.
Definition NO_SIBLING_IDX : Z := -1.
Definition NO_CHILD_IDX : Z := -1.

(** The token record.  [json] is the handle to the input text ([None] is the
    null pointer).  The [pool] handle of the C record points to the array the
    token is stored in: in the model it is the list that holds the token. *)
Record jtok_tkn_t : Type := mk_tkn {
  type : JTOK_TYPE_t;
  start : Z;
  end_ : Z;
  size : Z;
  parent : Z;
  sibling : Z;
  json : option string
}.

Definition set_type (t : jtok_tkn_t) (v : JTOK_TYPE_t) : jtok_tkn_t :=
  mk_tkn v (start t) (end_ t) (size t) (parent t) (sibling t) (json t).
Definition set_start (t : jtok_tkn_t) (v : Z) : jtok_tkn_t :=
  mk_tkn (type t) v (end_ t) (size t) (parent t) (sibling t) (json t).
Definition set_end (t : jtok_tkn_t) (v : Z) : jtok_tkn_t :=
  mk_tkn (type t) (start t) v (size t) (parent t) (sibling t) (json t).
Definition set_size (t : jtok_tkn_t) (v : Z) : jtok_tkn_t :=
  mk_tkn (type t) (start t) (end_ t) v (parent t) (sibling t) (json t).
Definition set_parent (t : jtok_tkn_t) (v : Z) : jtok_tkn_t :=
  mk_tkn (type t) (start t) (end_ t) (size t) v (sibling t) (json t).
Definition set_sibling (t : jtok_tkn_t) (v : Z) : jtok_tkn_t :=
  mk_tkn (type t) (start t) (end_ t) (size t) (parent t) v (json t).
Definition set_json (t : jtok_tkn_t) (v : option string) : jtok_tkn_t :=
  mk_tkn (type t) (start t) (end_ t) (size t) (parent t) (sibling t) v.

(** [size++] *)
Definition incr_size (t : jtok_tkn_t) : jtok_tkn_t := set_size t (size t + 1).

(** ** The token array *)

(** [tkns[i]] read. *)
Definition get_tkn (tkns : list jtok_tkn_t) (i : Z) : option jtok_tkn_t :=
  if i <? 0 then None else nth_error tkns (Z.to_nat i).

Fixpoint list_update {A : Type} (l : list A) (n : nat) (f : A -> A)
  : option (list A) :=
  match l, n with
  | [], _ => None
  | x :: l', O => Some (f x :: l')
  | x :: l', S n' =>
      match list_update l' n' f with
      | Some l'' => Some (x :: l'')
      | None => None
      end
  end.

(** [tkns[i]] written through [f]. *)
Definition upd_tkn (tkns : list jtok_tkn_t) (i : Z)
  (f : jtok_tkn_t -> jtok_tkn_t) : option (list jtok_tkn_t) :=
  if i <? 0 then None else list_update tkns (Z.to_nat i) f.

(** The bytes [json[start .. end)] of a token, for stating what is compared. *)
Definition payload (t : jtok_tkn_t) : string :=
  match json t with
  | None => EmptyString
  | Some j => String.substring (Z.to_nat (start t))
                               (Z.to_nat (end_ t - start t)) j
  end.

(** A result of the model: a value, or [Fault] (the C code would access
    memory outside an array or through a null pointer, or fail an
    assertion), or [OutOfFuel]
    (the bound on the iterations of a loop of the model was reached). *)
Inductive res (A : Type) : Type :=
| Val (a : A)
| Fault
| OutOfFuel.
Arguments Val {A} a.
Arguments Fault {A}.
Arguments OutOfFuel {A}.

Definition bind {A B : Type} (m : res A) (k : A -> res B) : res B :=
  match m with
  | Val a => k a
  | Fault => Fault
  | OutOfFuel => OutOfFuel
  end.

Definition of_option {A : Type} (o : option A) : res A :=
  match o with
  | Some a => Val a
  | None => Fault
  end.

Notation "x <- m ;; k" := (bind m (fun x => k))
  (at level 61, m at next level, right associativity).

(** ** [jtok.c]: lengths and comparison with a literal *)

Definition UINT16_MAX : Z := 65535.

(** [jtok_toklen]: [tokend - tokstart] is computed in [uint_least64_t]. *)
Definition jtok_toklen (tok : option jtok_tkn_t) : Z :=
  match tok with
  | None => 0
  | Some t =>
      let d := (end_ t - start t) mod 2 ^ 64 in
      if d <? UINT16_MAX then d else 0
  end.

(** [jtok_tokcmp]: [str] and [tok] are pointers, [None] is NULL.  Both
    lengths are held in [uint_least16_t].  The result is [Fault] where the C
    code dereferences a null [tok] or forms [&tok->json[tok->start]] outside
    the text. *)
Definition jtok_tokcmp (str : option string) (tok : option jtok_tkn_t)
  : res bool :=
  match str with
  | None =>
      match tok with
      | Some t => match json t with
                  | None => Val true
                  | Some _ => Val false
                  end
      | None => Val false
      end
  | Some s =>
      match tok with
      | Some (mk_tkn _ _ _ _ _ _ None) => Val false
      | None => Fault
      | Some (mk_tkn _ st _ _ _ _ (Some j) as t) =>
          let least_size := jtok_toklen (Some t) in
          let slen := Z.of_nat (strlen s) mod 2 ^ 16 in
          let least_size := if least_size <? slen then slen else least_size in
          if (st <? 0) || (Z.of_nat (String.length j) <? st) then Fault
          else Val (strncmp_eq s (string_from (Z.to_nat st) j)
                               (Z.to_nat least_size))
      end
  end.

(** ** [jtok.c]: [isValidJson] *)

(** [tcnt] is the [uint_least8_t] argument as the function receives it. *)
Definition isValidJson (tokens : option (list jtok_tkn_t)) (tcnt : Z)
  : res bool :=
  match tokens with
  | None => Val false
  | Some tks =>
      if tcnt >? 1 then
        t0 <- of_option (get_tkn tks 0) ;;
        let isValid := JTOK_TYPE_eqb (type t0) JTOK_OBJECT in
        if tcnt =? 2 then
          t1 <- of_option (get_tkn tks 1) ;;
          Val (if JTOK_TYPE_eqb (type t1) JTOK_ARRAY then true else isValid)
        else if tcnt >? 2 then
          t1 <- of_option (get_tkn tks 1) ;;
          Val (if JTOK_TYPE_eqb (type t1) JTOK_STRING then true else isValid)
        else Val isValid
      else Val false
  end.

(** ** [jtok.c]: [jtok_toktokcmp] and its table of comparators *)

(** The addresses of the four comparison functions, the values of type
    [tkn_comparison_func]. *)
Inductive tkn_comparison_func : Type :=
| addr_jtok_toktokcmp_primitive
| addr_jtok_toktokcmp_object
| addr_jtok_toktokcmp_array
| addr_jtok_toktokcmp_string.

(** [tokcmp_funcs[type]]: the table has designated entries for the four
    populated types only; [None] is outside the initialised entries. *)
Definition tokcmp_funcs (t : JTOK_TYPE_t) : option tkn_comparison_func :=
  match t with
  | JTOK_PRIMITIVE => Some addr_jtok_toktokcmp_primitive
  | JTOK_OBJECT => Some addr_jtok_toktokcmp_object
  | JTOK_ARRAY => Some addr_jtok_toktokcmp_array
  | JTOK_STRING => Some addr_jtok_toktokcmp_string
  | JTOK_UNASSIGNED_TOKEN => None
  end.

(** Conversion of a function pointer to [bool]: an address of a function is
    never null, so it converts to [true]. *)
Definition bool_of_func (f : tkn_comparison_func) : bool := true.

(** [jtok_toktokcmp]: [return tokcmp_funcs[tkn1->type];] returns the table
    entry itself, converted to [bool]; the entry is not called. *)
Definition jtok_toktokcmp (tkn1 tkn2 : jtok_tkn_t) : res bool :=
  let is_equal := false in
  if JTOK_TYPE_eqb (type tkn1) (type tkn2) then
    f <- of_option (tokcmp_funcs (type tkn1)) ;;
    Val (bool_of_func f)
  else Val is_equal.

(** Modelled from the spec: [jtok_toktokcmp_string] of [jtok_string.c],
    which is not part of the sources at hand ("Equality of two STRING
    tokens: byte-wise equal over [start, end)"). *)
Definition jtok_toktokcmp_string (tkn1 tkn2 : jtok_tkn_t) : bool :=
  String.eqb (payload tkn1) (payload tkn2).

(** Modelled from the spec: [jtok_toktokcmp_primitive] of
    [jtok_primitive.c], which is not part of the sources at hand ("Equality
    of two PRIMITIVE tokens: byte-wise equal over [start, end)"). *)
Definition jtok_toktokcmp_primitive (tkn1 tkn2 : jtok_tkn_t) : bool :=
  String.eqb (payload tkn1) (payload tkn2).

(** ** [jtok.c]: [jtok_obj_has_key] *)

Section ObjHasKey.

(** [sizeof(jtok_tkn_t)]: the record is declared in [inc/jtok.h], which is
    not part of the sources at hand. *)
Variable sizeof_jtok_tkn_t : Z.

(** The token array [obj->pool]; [obj] points to its element [obj_idx]. *)
Variable tkns : list jtok_tkn_t.
Variable key_str : option string.

(** The [for] loop: [n] iterations are left, [key_tkn] is the index of the
    key under the cursor. *)
Fixpoint has_key_loop (n : nat) (key_tkn : Z) : res Z :=
  match n with
  | O => Val INVALID_ARRAY_INDEX
  | S n' =>
      k <- of_option (get_tkn tkns key_tkn) ;;
      b <- jtok_tokcmp key_str (Some k) ;;
      if b then
        let key_idx := key_tkn - 0 in
        let key_idx := key_idx / sizeof_jtok_tkn_t in
        Val key_idx
      else if negb (sibling k =? NO_SIBLING_IDX)
           then has_key_loop n' (sibling k)
           else Val INVALID_ARRAY_INDEX
  end.

Definition jtok_obj_has_key (obj_idx : Z) : res Z :=
  obj <- of_option (get_tkn tkns obj_idx) ;;
  let key_idx := INVALID_ARRAY_INDEX in
  if JTOK_TYPE_eqb (type obj) JTOK_OBJECT then
    if size obj >? 0
    then has_key_loop (Z.to_nat (size obj)) (obj_idx + 1)
    else Val key_idx
  else Val key_idx.

End ObjHasKey.

(** ** [jtok.c]: the other helpers *)

(** [jtok_toktypename]: the name of a token type, [None] for the null
    pointer.  The table holds a name for the unassigned type, the [switch]
    does not return it. *)
Definition jtok_toktypename (ty : JTOK_TYPE_t) : option string :=
  match ty with
  | JTOK_PRIMITIVE => Some "JTOK_PRIMITIVE"
  | JTOK_OBJECT => Some "JTOK_OBJECT"
  | JTOK_ARRAY => Some "JTOK_ARRAY"
  | JTOK_STRING => Some "JTOK_STRING"
  | JTOK_UNASSIGNED_TOKEN => None
  end.

(** [jtok_jtokerr_messages]: the name of a status, [None] for the null
    pointer of the [default] case. *)
Definition jtok_jtokerr_messages (err : JTOK_PARSE_STATUS_t) : option string :=
  match err with
  | JTOK_PARSE_STATUS_OK => Some "JTOK_PARSE_STATUS_OK"
  | JTOK_PARSE_STATUS_UNKNOWN_ERROR => Some "JTOK_PARSE_STATUS_UNKNOWN_ERROR"
  | JTOK_PARSE_STATUS_NOMEM => Some "JTOK_PARSE_STATUS_NOMEM"
  | JTOK_PARSE_STATUS_INVAL => Some "JTOK_PARSE_STATUS_INVAL"
  | JTOK_PARSE_STATUS_PARTIAL_TOKEN => Some "JTOK_PARSE_STATUS_PARTIAL_TOKEN"
  | JTOK_PARSE_STATUS_KEY_NO_VAL => Some "JTOK_PARSE_STATUS_KEY_NO_VAL"
  | JTOK_PARSE_STATUS_COMMA_NO_KEY => Some "JTOK_PARSE_STATUS_COMMA_NO_KEY"
  | JTOK_PARSE_STATUS_OBJECT_INVALID_PARENT =>
      Some "JTOK_PARSE_STATUS_OBJECT_INVALID_PARENT"
  | JTOK_PARSE_STATUS_INVALID_PRIMITIVE =>
      Some "JTOK_PARSE_STATUS_INVALID_PRIMITIVE"
  | JTOK_PARSE_STATUS_NON_OBJECT => Some "JTOK_PARSE_STATUS_NON_OBJECT"
  | JTOK_PARSE_STATUS_INVALID_START => Some "JTOK_PARSE_STATUS_INVALID_START"
  | JTOK_PARSE_STATUS_INVALID_END => Some "JTOK_PARSE_STATUS_INVALID_END"
  | JTOK_PARSE_STATUS_OBJ_NOKEY => Some "JTOK_PARSE_STATUS_OBJ_NOKEY"
  | JTOK_STATUS_MIXED_ARRAY => Some "JTOK_STATUS_MIXED_ARRAY"
  | JTOK_PARSE_STATUS_ARRAY_SEPARATOR =>
      Some "JTOK_PARSE_STATUS_ARRAY_SEPARATOR"
  | JTOK_PARSE_STATUS_STRAY_COMMA => Some "JTOK_PARSE_STATUS_STRAY_COMMA"
  | JTOK_PARSE_STATUS_VAL_NO_COLON => Some "JTOK_PARSE_STATUS_VAL_NO_COLON"
  | JTOK_PARSE_STATUS_KEY_MULTIPLE_VAL =>
      Some "JTOK_PARSE_STATUS_KEY_MULTIPLE_VAL"
  | JTOK_PARSE_STATUS_INVALID_PARENT =>
      Some "JTOK_PARSE_STATUS_INVALID_PARENT"
  | JTOK_PARSE_STATUS_VAL_NO_COMMA => Some "JTOK_PARSE_STATUS_VAL_NO_COMMA"
  | JTOK_PARSE_STATUS_NON_ARRAY => Some "JTOK_PARSE_STATUS_NON_ARRAY"
  | JTOK_PARSE_STATUS_EMPTY_KEY => Some "JTOK_PARSE_STATUS_EMPTY_KEY"
  | JTOK_PARSE_STATUS_NULL_PARAM => None
  | JTOK_PARSE_STATUS_NEST_DEPTH_EXCEEDED => None
  end.

(** [jtok_tokncmp]: [n] is the [uint_least16_t] argument as the function
    receives it.  [Fault] is as in [jtok_tokcmp]. *)
Definition jtok_tokncmp (str : option string) (tok : option jtok_tkn_t)
  (n : Z) : res bool :=
  match str, tok with
  | Some s, Some (mk_tkn _ st _ _ _ _ (Some j) as t) =>
      let least_size := jtok_toklen (Some t) in
      let slen := Z.of_nat (strlen s) mod 2 ^ 16 in
      let least_size := if least_size <? slen then slen else least_size in
      let least_size := if least_size <? n then n else least_size in
      if (st <? 0) || (Z.of_nat (String.length j) <? st) then Fault
      else Val (strncmp_eq s (string_from (Z.to_nat st) j)
                           (Z.to_nat least_size))
  | _, _ => Val false
  end.

(** [strncpy(dst, src, n)] on the buffer [dst]: [n] bytes are written, the
    bytes of [src] up to its NUL and NUL bytes after it; [None] when the
    buffer is shorter than [n]. *)
Fixpoint strncpy (dst : list ascii) (src : string) (n : nat) {struct n}
  : option (list ascii) :=
  match n with
  | O => Some dst
  | S n' =>
      match dst with
      | [] => None
      | _ :: dst' =>
          let c := head_char src in
          let src' := if Ascii.eqb c NUL then EmptyString
                      else tail_string src in
          match strncpy dst' src' n' with
          | Some d => Some (c :: d)
          | None => None
          end
      end
  end.

(** [jtok_tokcpy]: [dst] is the destination buffer ([None] is NULL) and
    [bufsize] the [uint_least16_t] argument as the function receives it.
    The result is the pointer returned, [None] for NULL and otherwise [dst]
    with the content the call leaves in it. *)
Definition jtok_tokcpy (dst : option (list ascii)) (bufsize : Z)
  (tkn : option jtok_tkn_t) : res (option (list ascii)) :=
  match dst, tkn with
  | Some buf, Some (mk_tkn _ st _ _ _ _ (Some j) as t) =>
      let copy_count := jtok_toklen (Some t) in
      let copy_count := if copy_count >? bufsize then bufsize
                        else copy_count in
      if (st <? 0) || (Z.of_nat (String.length j) <? st) then Fault
      else
        buf' <- of_option (strncpy buf (string_from (Z.to_nat st) j)
                                   (Z.to_nat copy_count)) ;;
        Val (Some buf')
  | _, _ => Val None
  end.

(** [jtok_tokncpy] *)
Definition jtok_tokncpy (dst : option (list ascii)) (bufsize : Z)
  (tkn : option jtok_tkn_t) (n : Z) : res (option (list ascii)) :=
  let count := bufsize in
  let count := if bufsize >? n then n else count in
  jtok_tokcpy dst count tkn.

(** The C string held by a buffer: its bytes before the first NUL. *)
Fixpoint c_string_of (buf : list ascii) : string :=
  match buf with
  | [] => EmptyString
  | c :: buf' => if Ascii.eqb c NUL then EmptyString
                 else String c (c_string_of buf')
  end.

(** ** The parse context *)

(** [json_str] is the field [json] of the C record (the input text), and
    [tkn_pool] the caller's token array ([None] is the null pointer). *)
Record jtok_parser_t : Type := mk_parser {
  pos : Z;
  toknext : Z;
  toksuper : Z;
  json_str : string;
  json_len : Z;
  last_child : Z;
  tkn_pool : option (list jtok_tkn_t);
  pool_size : Z
}.

Definition set_pos (p : jtok_parser_t) (v : Z) : jtok_parser_t :=
  mk_parser v (toknext p) (toksuper p) (json_str p) (json_len p)
            (last_child p) (tkn_pool p) (pool_size p).
Definition set_toknext (p : jtok_parser_t) (v : Z) : jtok_parser_t :=
  mk_parser (pos p) v (toksuper p) (json_str p) (json_len p)
            (last_child p) (tkn_pool p) (pool_size p).
Definition set_toksuper (p : jtok_parser_t) (v : Z) : jtok_parser_t :=
  mk_parser (pos p) (toknext p) v (json_str p) (json_len p)
            (last_child p) (tkn_pool p) (pool_size p).
Definition set_last_child (p : jtok_parser_t) (v : Z) : jtok_parser_t :=
  mk_parser (pos p) (toknext p) (toksuper p) (json_str p) (json_len p)
            v (tkn_pool p) (pool_size p).
Definition set_tkn_pool (p : jtok_parser_t) (v : option (list jtok_tkn_t))
  : jtok_parser_t :=
  mk_parser (pos p) (toknext p) (toksuper p) (json_str p) (json_len p)
            (last_child p) v (pool_size p).

(** [parser->pos++] *)
Definition incr_pos (p : jtok_parser_t) : jtok_parser_t := set_pos p (pos p + 1).

(** What a parse routine hands back: its status and the context it leaves. *)
Definition outcome : Type := res (JTOK_PARSE_STATUS_t * jtok_parser_t).

(** [tokens[i]] read and written through the context. *)
Definition tokens_get (p : jtok_parser_t) (i : Z) : res jtok_tkn_t :=
  tks <- of_option (tkn_pool p) ;;
  of_option (get_tkn tks i).

Definition tokens_upd (p : jtok_parser_t) (i : Z)
  (f : jtok_tkn_t -> jtok_tkn_t) : res jtok_parser_t :=
  tks <- of_option (tkn_pool p) ;;
  tks' <- of_option (upd_tkn tks i f) ;;
  Val (set_tkn_pool p (Some tks')).

(** Modelled from the spec: [jtok_alloc_token] of [jtok_shared.c], which is
    not part of the sources at hand ("if toknext == capacity, fail with
    NOMEM; otherwise return a handle to slot toknext, initialize its
    parent = NO_PARENT, sibling = NO_SIBLING, size = 0, end = INVALID,
    type = UNASSIGNED, increment toknext").  The handle is the index of the
    slot, [None] the null pointer.  The token's [json] handle is the input of
    the context ("opaque handle to the input buffer"). *)
Definition jtok_alloc_token (p : jtok_parser_t)
  : res (option Z * jtok_parser_t) :=
  if toknext p =? pool_size p then Val (None, p)
  else
    let i := toknext p in
    p' <- tokens_upd p i (fun t =>
            mk_tkn JTOK_UNASSIGNED_TOKEN (start t) INVALID_ARRAY_INDEX 0
                   NO_PARENT_IDX NO_SIBLING_IDX (Some (json_str p))) ;;
    Val (Some i, set_toknext p' (i + 1)).

(** Modelled from the spec: [jtok_fill_token] of [jtok_shared.c], which is
    not part of the sources at hand; the calls in [jtok_object.c] pass the
    token, its type, its start and its end. *)
Definition jtok_fill_token (t : jtok_tkn_t) (ty : JTOK_TYPE_t) (st en : Z)
  : jtok_tkn_t :=
  set_end (set_start (set_type t ty) st) en.

(** ** [jtok_object.c]: [jtok_parse_object] *)

Inductive expecting_t : Type :=
| OBJECT_KEY
| OBJECT_COLON
| OBJECT_VALUE
| OBJECT_COMMA.

(** How one pass through the body of the [for] loop ends: with a [return]
    inside the [switch], or by reaching the loop's [parser->pos++] ([break]
    out of the [switch], or [continue]) with the status and state it set. *)
Inductive step_t : Type :=
| Return_ (st : JTOK_PARSE_STATUS_t) (p : jtok_parser_t)
| Next (st : JTOK_PARSE_STATUS_t) (e : expecting_t) (p : jtok_parser_t).

Definition is_primitive_lead (c : ascii) : bool :=
  let n := N_of_ascii c in
  (Ascii.eqb c "+" || Ascii.eqb c "-" || (N.leb 48 n && N.leb n 57)
   || Ascii.eqb c "t" || Ascii.eqb c "f" || Ascii.eqb c "n")%bool.

(** The four bytes that the [switch] of the object parser skips. *)
Definition is_skipped (c : ascii) : bool :=
  (Ascii.eqb c TAB || Ascii.eqb c CR || Ascii.eqb c LF || Ascii.eqb c " ")%bool.

Section ObjectParser.

(** The nesting limit of [inc/jtok.h], which is not part of the sources at
    hand. *)
Variable JTOK_MAX_RECURSE_DEPTH : Z.

(** The parse routines of [jtok_string.c], [jtok_primitive.c] and
    [jtok_array.c], which are not part of the sources at hand: the object
    parser is modelled over any three routines. *)
Variable string_parser : jtok_parser_t -> outcome.
Variable primitive_parser : jtok_parser_t -> outcome.
Variable array_parser : jtok_parser_t -> Z -> outcome.

Section Body.

(** The nested call [jtok_parse_object(parser, depth + 1)]. *)
Variable object_parser : jtok_parser_t -> Z -> outcome.

(** The locals [depth], [start], [json], [len] and
    [object_token_index] of the invocation. *)
Variable depth : Z.
Variable start0 : Z.
Variable js : string.
Variable len : Z.
Variable object_token_index : Z.

(** [case '{':] *)
Definition step_lbrace (expecting : expecting_t) (p : jtok_parser_t)
  : res step_t :=
  match expecting with
  | OBJECT_KEY => Val (Next JTOK_PARSE_STATUS_OBJ_NOKEY expecting p)
  | OBJECT_COLON => Val (Next JTOK_PARSE_STATUS_VAL_NO_COLON expecting p)
  | OBJECT_VALUE =>
      let key_idx := toksuper p in
      r <- object_parser p (depth + 1) ;;
      let '(status, p) := r in
      if status_is_ok status then
        p <- (if negb (key_idx =? NO_PARENT_IDX)
              then tokens_upd p key_idx incr_size
              else Val p) ;;
        let p := set_toksuper p key_idx in
        let p := set_last_child p key_idx in
        Val (Next status OBJECT_COMMA p)
      else Val (Next status expecting p)
  | OBJECT_COMMA => Val (Next JTOK_PARSE_STATUS_INVAL expecting p)
  end.

(** [case '[':] *)
Definition step_lbracket (expecting : expecting_t) (p : jtok_parser_t)
  : res step_t :=
  match expecting with
  | OBJECT_KEY => Val (Next JTOK_PARSE_STATUS_OBJ_NOKEY expecting p)
  | OBJECT_COLON => Val (Next JTOK_PARSE_STATUS_VAL_NO_COLON expecting p)
  | OBJECT_VALUE =>
      let key_idx := toksuper p in
      r <- array_parser p (depth + 1) ;;
      let '(status, p) := r in
      if status_is_ok status then
        if negb (key_idx =? NO_PARENT_IDX) then
          p <- tokens_upd p key_idx incr_size ;;
          Val (Next status OBJECT_COMMA (set_last_child p key_idx))
        else
          Val (Next JTOK_PARSE_STATUS_INVALID_PARENT OBJECT_COMMA
                    (set_last_child p key_idx))
      else Val (Next status expecting p)
  | OBJECT_COMMA => Val (Next JTOK_PARSE_STATUS_INVAL expecting p)
  end.

(** [case '}':]; entered with [status == JTOK_PARSE_STATUS_OK]. *)
Definition step_rbrace (expecting : expecting_t) (p : jtok_parser_t)
  : res step_t :=
  match expecting with
  | OBJECT_KEY =>
      parent_obj <- tokens_get p object_token_index ;;
      if negb (JTOK_TYPE_eqb (type parent_obj) JTOK_OBJECT)
         || (toknext p =? 0)
      then Val (Return_ JTOK_PARSE_STATUS_INVAL (set_pos p start0))
      else
        p <- tokens_upd p object_token_index
               (fun t => set_end t (pos p + 1)) ;;
        let p := set_toksuper p (parent parent_obj) in
        Val (Return_ JTOK_PARSE_STATUS_OK p)
  | OBJECT_COMMA =>
      parent_obj <- tokens_get p object_token_index ;;
      if negb (JTOK_TYPE_eqb (type parent_obj) JTOK_OBJECT)
         || (toknext p =? 0)
      then Val (Return_ JTOK_PARSE_STATUS_INVAL (set_pos p start0))
      else
        p <- tokens_upd p object_token_index
               (fun t => set_end t (pos p + 1)) ;;
        let p := set_toksuper p (parent parent_obj) in
        p <- (if negb (last_child p =? NO_CHILD_IDX)
              then tokens_upd p (last_child p)
                     (fun t => set_sibling t NO_SIBLING_IDX)
              else Val p) ;;
        let p := set_last_child p NO_CHILD_IDX in
        Val (Return_ JTOK_PARSE_STATUS_OK p)
  | OBJECT_COLON => Val (Next JTOK_PARSE_STATUS_KEY_NO_VAL expecting p)
  | OBJECT_VALUE => Val (Next JTOK_PARSE_STATUS_KEY_NO_VAL expecting p)
  end.

(** The case of the double quote. *)
Definition step_quote (expecting : expecting_t) (p : jtok_parser_t)
  : res step_t :=
  match expecting with
  | OBJECT_KEY =>
      let parent_idx := toksuper p in
      parent_obj <- tokens_get p parent_idx ;;
      if JTOK_TYPE_eqb (type parent_obj) JTOK_OBJECT then
        r <- string_parser p ;;
        let '(status, p) := r in
        if status_is_ok status then
          p <- (if negb (last_child p =? NO_CHILD_IDX)
                then tokens_upd p (last_child p)
                       (fun t => set_sibling t (toknext p - 1))
                else Val p) ;;
          let p := set_last_child p (toknext p - 1) in
          p <- tokens_upd p parent_idx incr_size ;;
          Val (Next status OBJECT_COLON p)
        else Val (Next status OBJECT_COLON p)
      else Val (Next JTOK_PARSE_STATUS_INVALID_PARENT expecting p)
  | OBJECT_VALUE =>
      let key_idx := toksuper p in
      key_tkn <- tokens_get p key_idx ;;
      if JTOK_TYPE_eqb (type key_tkn) JTOK_STRING then
        if negb (size key_tkn =? 0) then
          Val (Next JTOK_PARSE_STATUS_KEY_MULTIPLE_VAL expecting p)
        else
          r <- string_parser p ;;
          let '(status, p) := r in
          if status_is_ok status then
            p <- tokens_upd p key_idx incr_size ;;
            Val (Next status OBJECT_COMMA p)
          else Val (Next status OBJECT_COMMA p)
      else Val (Next JTOK_PARSE_STATUS_INVALID_PARENT expecting p)
  | OBJECT_COLON => Val (Next JTOK_PARSE_STATUS_VAL_NO_COLON expecting p)
  | OBJECT_COMMA => Val (Next JTOK_PARSE_STATUS_VAL_NO_COMMA expecting p)
  end.

(** [case ':':] *)
Definition step_colon (expecting : expecting_t) (p : jtok_parser_t)
  : res step_t :=
  match expecting with
  | OBJECT_COLON =>
      Val (Next JTOK_PARSE_STATUS_OK OBJECT_VALUE
                (set_toksuper p (toknext p - 1)))
  | _ => Val (Next JTOK_PARSE_STATUS_INVAL expecting (set_pos p start0))
  end.

(** [case ',':] *)
Definition step_comma (expecting : expecting_t) (p : jtok_parser_t)
  : res step_t :=
  match expecting with
  | OBJECT_COMMA =>
      parent_key <- tokens_get p (toksuper p) ;;
      Val (Next JTOK_PARSE_STATUS_OK OBJECT_KEY
                (set_toksuper p (parent parent_key)))
  | _ => Val (Next JTOK_PARSE_STATUS_OBJ_NOKEY expecting p)
  end.

(** [case '+': case '-': case '0': ... case 't': case 'f': case 'n':] *)
Definition step_primitive (expecting : expecting_t) (p : jtok_parser_t)
  : res step_t :=
  match expecting with
  | OBJECT_VALUE =>
      parent_tkn <- tokens_get p (toksuper p) ;;
      let '(status, p) :=
        match type parent_tkn with
        | JTOK_OBJECT => (JTOK_PARSE_STATUS_INVAL, set_pos p start0)
        | JTOK_STRING =>
            if negb (size parent_tkn =? 0)
            then (JTOK_PARSE_STATUS_INVAL, set_pos p start0)
            else (JTOK_PARSE_STATUS_OK, p)
        | _ => (JTOK_PARSE_STATUS_INVAL, p)
        end in
      if status_is_ok status then
        r <- primitive_parser p ;;
        let '(status, p) := r in
        if status_is_ok status then
          p <- (if negb (toksuper p =? NO_PARENT_IDX)
                then tokens_upd p (toksuper p) incr_size
                else Val p) ;;
          Val (Next status OBJECT_COMMA p)
        else Val (Next status expecting p)
      else Val (Next status expecting p)
  | _ =>
      super <- tokens_get p (toksuper p) ;;
      Val (Next JTOK_PARSE_STATUS_KEY_NO_VAL expecting
                (set_pos p (start super)))
  end.

(** The [switch (json[parser->pos])] of the loop body. *)
Definition object_step (expecting : expecting_t) (p : jtok_parser_t)
  : res step_t :=
  let c := char_at js (pos p) in
  if Ascii.eqb c "{" then step_lbrace expecting p
  else if Ascii.eqb c "[" then step_lbracket expecting p
  else if Ascii.eqb c "}" then step_rbrace expecting p
  else if Ascii.eqb c dquote then step_quote expecting p
  else if is_skipped c then Val (Next JTOK_PARSE_STATUS_OK expecting p)
  else if Ascii.eqb c ":" then step_colon expecting p
  else if Ascii.eqb c "," then step_comma expecting p
  else if is_primitive_lead c then step_primitive expecting p
  else Val (Next JTOK_PARSE_STATUS_INVAL expecting (set_pos p start0)).

(** The [for] loop, entered at its condition, and the code after it.
    [fuel] bounds the number of times the condition is evaluated. *)
Fixpoint object_loop (fuel : nat) (status : JTOK_PARSE_STATUS_t)
  (expecting : expecting_t) (p : jtok_parser_t) : outcome :=
  match fuel with
  | O => OutOfFuel
  | S fuel' =>
      if (pos p <? len) && negb (Ascii.eqb (char_at js (pos p)) NUL)
         && status_is_ok status
      then
        s <- object_step expecting p ;;
        match s with
        | Return_ status p => Val (status, p)
        | Next status expecting p =>
            object_loop fuel' status expecting (incr_pos p)
        end
      else if status_is_ok status
           then Val (JTOK_PARSE_STATUS_PARTIAL_TOKEN, set_pos p start0)
           else Val (status, p)
  end.

End Body.

(** [jtok_parse_object].  [fuel] bounds the iterations of the loop and the
    depth of the nested calls of the model. *)
Fixpoint jtok_parse_object (fuel : nat) (p : jtok_parser_t) (depth : Z)
  : outcome :=
  let start0 := pos p in
  let js := json_str p in
  let len := json_len p in
  if depth >? JTOK_MAX_RECURSE_DEPTH
  then Val (JTOK_PARSE_STATUS_NEST_DEPTH_EXCEEDED, p)
  else
    match tkn_pool p with
    | None => Val (JTOK_PARSE_STATUS_OK, p)
    | Some _ =>
        if negb (Ascii.eqb (char_at js (pos p)) "{")
        then Val (JTOK_PARSE_STATUS_NON_OBJECT, p)
        else
          a <- jtok_alloc_token p ;;
          match a with
          | (None, p) => Val (JTOK_PARSE_STATUS_NOMEM, p)
          | (Some token, p) =>
              let super := toksuper p in
              p <- tokens_upd p token (fun t => set_parent t super) ;;
              let p := set_toksuper p (toknext p - 1) in
              let object_token_index := toksuper p in
              p <- tokens_upd p token (fun t =>
                     jtok_fill_token t JTOK_OBJECT (pos p)
                                     INVALID_ARRAY_INDEX) ;;
              let p := incr_pos p in
              let p := set_last_child p NO_CHILD_IDX in
              object_loop
                (fun p' d' =>
                   match fuel with
                   | O => OutOfFuel
                   | S fuel' => jtok_parse_object fuel' p' d'
                   end)
                depth start0 js len object_token_index
                fuel JTOK_PARSE_STATUS_OK OBJECT_KEY p
          end
    end.

(** The conversion of an argument to an [unsigned int] parameter: the value
    modulo [UINT_MAX + 1], with an [unsigned int] of 32 bits. *)
Definition UINT_MAX : Z := 4294967295.

Definition to_unsigned_int (z : Z) : Z := z mod (UINT_MAX + 1).

(** [jtok_new_parser]: [poolsize] is the value of its [unsigned int]
    parameter. *)
Definition jtok_new_parser (json_text : string) (tokens : list jtok_tkn_t)
  (poolsize : Z) : jtok_parser_t :=
  mk_parser 0 0 NO_PARENT_IDX json_text (Z.of_nat (strlen json_text))
            NO_CHILD_IDX (Some tokens) poolsize.

(** [while (isspace((int)json[parser.pos])) parser.pos++;] run on the text
    that starts at [pos]: the loop stops at the terminating NUL at the
    latest. *)
Fixpoint skip_space (s : string) (pos : Z) : Z :=
  match s with
  | EmptyString => pos
  | String c s' => if isspace c then skip_space s' (pos + 1) else pos
  end.

(** [jtok_parse]: the status, and the token array as the call leaves it.
    [size] is a [size_t] and is tested as such; the call of
    [jtok_new_parser] converts it to [unsigned int].  The object parser of a
    text of [n] bytes meets its loop condition at most [n] times and nests
    at most [n] deep when every routine it calls moves [pos] forward. *)
Definition jtok_parse (json_text : option string)
  (tkns : option (list jtok_tkn_t)) (size_ : Z)
  : res (JTOK_PARSE_STATUS_t * option (list jtok_tkn_t)) :=
  match json_text with
  | None => Val (JTOK_PARSE_STATUS_NULL_PARAM, tkns)
  | Some text =>
      match tkns with
      | None => Val (JTOK_PARSE_STATUS_NULL_PARAM, tkns)
      | Some tokens =>
          if size_ <? 1 then Val (JTOK_PARSE_STATUS_NOMEM, tkns)
          else
            let parser :=
              jtok_new_parser text tokens (to_unsigned_int size_) in
            let parser := set_pos parser (skip_space text 0) in
            r <- jtok_parse_object (S (String.length text)) parser 0 ;;
            let '(status, parser) := r in
            Val (status, tkn_pool parser)
      end
  end.

End ObjectParser.

(** ** [jtok_object.c]: [jtok_toktokcmp_object] *)

(** [assert]: a failed assertion stops the program. *)
Definition assert (b : bool) : res unit := if b then Val tt else Fault.

Section ToktokcmpObject.

(** The token arrays [obj1->pool] and [obj2->pool]; [obj1] and [obj2] point
    to their elements [obj1_idx] and [obj2_idx]. *)
Variable pool1 pool2 : list jtok_tkn_t.

(** The inner loop, which looks in [obj2] for the key [child1] of [obj1]:
    [n] iterations are left, [j] is the counter and [child2] the index of
    the key of [obj2] under the cursor.  The result is the value of [j] and
    of [is_equal] when the loop is left. *)
Fixpoint find_key_loop (n : nat) (j : Z) (child1 child2 : Z)
  : res (Z * bool) :=
  match n with
  | O => Val (j, true)
  | S n' =>
      c1 <- of_option (get_tkn pool1 child1) ;;
      c2 <- of_option (get_tkn pool2 child2) ;;
      keys_equal <- jtok_toktokcmp c1 c2 ;;
      if keys_equal then
        val1 <- of_option (get_tkn pool1 (child1 + 1)) ;;
        val2 <- of_option (get_tkn pool2 (child2 + 1)) ;;
        values_equal <- jtok_toktokcmp val1 val2 ;;
        if values_equal then Val (j, true)
        else Val (j + 1, false)
      else if sibling c2 =? NO_SIBLING_IDX then Val (j, false)
           else find_key_loop n' (j + 1) child1 (sibling c2)
  end.

(** The outer loop over the keys of [obj1]: [n] iterations are left and
    [child1] is the index of the key under the cursor. *)
Fixpoint match_keys_loop (n : nat) (child1 : Z) (obj2_idx size2 : Z)
  : res bool :=
  match n with
  | O => Val true
  | S n' =>
      let child2 := obj2_idx + 1 in
      c2 <- of_option (get_tkn pool2 child2) ;;
      _ <- assert (JTOK_TYPE_eqb (type c2) JTOK_STRING) ;;
      r <- find_key_loop (Z.to_nat size2) 0 child1 child2 ;;
      let '(j, is_equal) := r in
      if j =? size2 then Val false
      else
        c1 <- of_option (get_tkn pool1 child1) ;;
        if is_equal then match_keys_loop n' (sibling c1) obj2_idx size2
        else Val false
  end.

(** The assertions on the array of one of the two objects.  The two [json]
    handles are compared by the text they point to. *)
Definition assert_pool (pool : list jtok_tkn_t) (obj_idx : Z) : res unit :=
  root <- of_option (get_tkn pool 0) ;;
  obj <- of_option (get_tkn pool obj_idx) ;;
  _ <- assert (JTOK_TYPE_eqb (type root) JTOK_OBJECT) ;;
  _ <- assert (match json root, json obj with
               | Some a, Some b => String.eqb a b
               | None, None => true
               | _, _ => false
               end) ;;
  if negb (obj_idx =? 0) then assert (size root >? 1) else Val tt.

Definition jtok_toktokcmp_object (obj1_idx obj2_idx : Z) : res bool :=
  _ <- assert_pool pool1 obj1_idx ;;
  _ <- assert_pool pool2 obj2_idx ;;
  obj1 <- of_option (get_tkn pool1 obj1_idx) ;;
  obj2 <- of_option (get_tkn pool2 obj2_idx) ;;
  if negb (JTOK_TYPE_eqb (type obj1) JTOK_OBJECT)
     || negb (JTOK_TYPE_eqb (type obj2) JTOK_OBJECT)
  then Val false
  else if negb (size obj1 =? size obj2) then Val false
  else if size obj1 >? 0 then
    let child1 := obj1_idx + 1 in
    c1 <- of_option (get_tkn pool1 child1) ;;
    _ <- assert (JTOK_TYPE_eqb (type c1) JTOK_STRING) ;;
    match_keys_loop (Z.to_nat (size obj1)) child1 obj2_idx (size obj2)
  else Val true.

End ToktokcmpObject.


(** ** The string and primitive parsers, from the specification *)

Definition is_digit (c : ascii) : bool :=
  let n := N_of_ascii c in (N.leb 48 n && N.leb n 57)%bool.

Definition is_hex_digit (c : ascii) : bool :=
  let n := N_of_ascii c in
  (is_digit c || (N.leb 65 n && N.leb n 70) || (N.leb 97 n && N.leb n 102))%bool.

Definition is_simple_escape (c : ascii) : bool :=
  (Ascii.eqb c dquote || Ascii.eqb c backslash || Ascii.eqb c "/"
   || Ascii.eqb c "b" || Ascii.eqb c "f" || Ascii.eqb c "n"
   || Ascii.eqb c "r" || Ascii.eqb c "t")%bool.

Definition four_hex_digits (s : string) : bool :=
  match s with
  | String a (String b (String c (String d _))) =>
      (is_hex_digit a && is_hex_digit b && is_hex_digit c && is_hex_digit d)%bool
  | _ => false
  end.

(** The scan of a string body: [s] is the text at offset [i]; the result is
    the offset of the closing quote, or the status of the failure. *)
Fixpoint string_scan (s : string) (i : Z) : Z + JTOK_PARSE_STATUS_t :=
  match s with
  | EmptyString => inr JTOK_PARSE_STATUS_PARTIAL_TOKEN
  | String c s' =>
      if Ascii.eqb c NUL then inr JTOK_PARSE_STATUS_PARTIAL_TOKEN
      else if Ascii.eqb c dquote then inl i
      else if Ascii.eqb c backslash then
        match s' with
        | EmptyString => inr JTOK_PARSE_STATUS_PARTIAL_TOKEN
        | String e s'' =>
            if is_simple_escape e then string_scan s'' (i + 2)
            else if Ascii.eqb e "u" && four_hex_digits s''
                 then string_scan s'' (i + 2)
                 else inr JTOK_PARSE_STATUS_INVAL
        end
      else if N.ltb (N_of_ascii c) 32 then inr JTOK_PARSE_STATUS_INVAL
      else string_scan s' (i + 1)
  end.

(** Modelled from the spec: [jtok_parse_string] of [jtok_string.c], which is
    not part of the sources at hand ("pos points at the opening quote; the
    string extends from the byte after the opening quote to the byte before
    the matching unescaped closing quote"; the escapes and the bytes below
    0x20 as the spec lists them; "allocate one token with type STRING, start
    = offset of first payload byte, end = offset of the closing quote
    (exclusive), parent = toksuper").  Like [jtok_parse_object] at its
    closing brace, the routine leaves [pos] on the closing quote: the loop of
    the caller increments it, which is the spec's "pos advances to one past
    the closing quote".  A failure leaves the context as it was. *)
Definition jtok_parse_string (p : jtok_parser_t) : outcome :=
  let start0 := pos p in
  if negb (Ascii.eqb (char_at (json_str p) start0) dquote)
  then Val (JTOK_PARSE_STATUS_INVAL, p)
  else
    match string_scan (string_from (Z.to_nat (start0 + 1)) (json_str p))
                      (start0 + 1) with
    | inr status => Val (status, p)
    | inl close =>
        a <- jtok_alloc_token p ;;
        match a with
        | (None, p) => Val (JTOK_PARSE_STATUS_NOMEM, p)
        | (Some token, p) =>
            p <- tokens_upd p token (fun t =>
                   set_parent (jtok_fill_token t JTOK_STRING (start0 + 1) close)
                              (toksuper p)) ;;
            Val (JTOK_PARSE_STATUS_OK, set_pos p close)
        end
    end.

(** The terminator set of a primitive: comma, closing bracket, closing
    brace, whitespace. *)
Definition is_primitive_terminator (c : ascii) : bool :=
  (Ascii.eqb c "," || Ascii.eqb c "]" || Ascii.eqb c "}" || is_skipped c)%bool.

(** The scan of a primitive: the bytes before the first terminator, or
    [None] when the text ends first. *)
Fixpoint primitive_scan (s : string) : option (list ascii) :=
  match s with
  | EmptyString => None
  | String c s' =>
      if Ascii.eqb c NUL then None
      else if is_primitive_terminator c then Some []
      else match primitive_scan s' with
           | Some l => Some (c :: l)
           | None => None
           end
  end.

Fixpoint skip_digits (l : list ascii) : list ascii :=
  match l with
  | c :: l' => if is_digit c then skip_digits l' else l
  | [] => []
  end.

Definition some_digits (l : list ascii) : option (list ascii) :=
  match l with
  | c :: l' => if is_digit c then Some (skip_digits l') else None
  | [] => None
  end.

Definition sign_part (l : list ascii) : list ascii :=
  match l with
  | c :: l' => if Ascii.eqb c "+" || Ascii.eqb c "-" then l' else l
  | [] => []
  end.

Definition integer_part (l : list ascii) : option (list ascii) :=
  match l with
  | c :: l' =>
      if Ascii.eqb c "0" then Some l'
      else if is_digit c then Some (skip_digits l') else None
  | [] => None
  end.

Definition fraction_part (l : list ascii) : option (list ascii) :=
  match l with
  | c :: l' => if Ascii.eqb c "." then some_digits l' else Some l
  | [] => Some []
  end.

Definition exponent_part (l : list ascii) : option (list ascii) :=
  match l with
  | c :: l' =>
      if Ascii.eqb c "e" || Ascii.eqb c "E"
      then some_digits (sign_part l')
      else Some l
  | [] => Some []
  end.

(** A number: optional sign, integer part without leading zeros, optional
    fraction, optional exponent, and nothing after it. *)
Definition is_number (l : list ascii) : bool :=
  match integer_part (sign_part l) with
  | Some l1 =>
      match fraction_part l1 with
      | Some l2 =>
          match exponent_part l2 with
          | Some [] => true
          | _ => false
          end
      | None => false
      end
  | None => false
  end.

Definition is_valid_primitive (l : list ascii) : bool :=
  let s := string_of_list_ascii l in
  (String.eqb s "true" || String.eqb s "false" || String.eqb s "null"
   || is_number l)%bool.

(** Modelled from the spec: [jtok_parse_primitive] of [jtok_primitive.c],
    which is not part of the sources at hand ("the primitive extends from pos
    up to but not including the first byte in the terminator set; if the
    terminator is not found before end-of-input, fail with PARTIAL_TOKEN";
    "exactly one of the literals true, false, null, or a valid JSON number",
    else INVALID_PRIMITIVE; "allocate one token with type PRIMITIVE, start =
    pos0, end = pos, parent = toksuper, advance the context past the token.
    Do not consume the terminator").  The routine leaves [pos] on the last
    byte of the primitive: the loop of the caller increments it to the
    terminator.  A failure leaves the context as it was. *)
Definition jtok_parse_primitive (p : jtok_parser_t) : outcome :=
  let start0 := pos p in
  match primitive_scan (string_from (Z.to_nat start0) (json_str p)) with
  | None => Val (JTOK_PARSE_STATUS_PARTIAL_TOKEN, p)
  | Some l =>
      if negb (is_valid_primitive l)
      then Val (JTOK_PARSE_STATUS_INVALID_PRIMITIVE, p)
      else
        let stop := start0 + Z.of_nat (List.length l) in
        a <- jtok_alloc_token p ;;
        match a with
        | (None, p) => Val (JTOK_PARSE_STATUS_NOMEM, p)
        | (Some token, p) =>
            p <- tokens_upd p token (fun t =>
                   set_parent (jtok_fill_token t JTOK_PRIMITIVE start0 stop)
                              (toksuper p)) ;;
            Val (JTOK_PARSE_STATUS_OK, set_pos p (stop - 1))
        end
  end.

(** ** Sample data *)

(** An unassigned slot of a token array, as a caller hands it in. *)
Definition blank_tkn : jtok_tkn_t :=
  mk_tkn JTOK_UNASSIGNED_TOKEN 0 0 0 0 0 None.

Definition blank_pool (n : nat) : list jtok_tkn_t := repeat blank_tkn n.

Definition q : string := String dquote EmptyString.

(** The text [{"a":1}] and the three tokens that a parse of it fills. *)
Definition text_a1 : string := "{" ++ q ++ "a" ++ q ++ ":1}".
Definition tkn_a1_object : jtok_tkn_t :=
  mk_tkn JTOK_OBJECT 0 7 1 (-1) (-1) (Some text_a1).
Definition tkn_a1_key : jtok_tkn_t :=
  mk_tkn JTOK_STRING 2 3 1 0 (-1) (Some text_a1).
Definition tkn_a1_value : jtok_tkn_t :=
  mk_tkn JTOK_PRIMITIVE 5 6 0 1 (-1) (Some text_a1).

(** The text [{"a":"b"}] and its key and value tokens. *)
Definition text_ab : string :=
  "{" ++ q ++ "a" ++ q ++ ":" ++ q ++ "b" ++ q ++ "}".
Definition tkn_ab_key : jtok_tkn_t :=
  mk_tkn JTOK_STRING 2 3 1 0 (-1) (Some text_ab).
Definition tkn_ab_value : jtok_tkn_t :=
  mk_tkn JTOK_STRING 6 7 0 1 (-1) (Some text_ab).

(** The only token of the text [{}]. *)
Definition tkn_empty_object : jtok_tkn_t :=
  mk_tkn JTOK_OBJECT 0 2 0 (-1) (-1) (Some "{}").

(** The populated token types. *)
Definition is_populated (t : JTOK_TYPE_t) : bool :=
  match t with
  | JTOK_UNASSIGNED_TOKEN => false
  | _ => true
  end.

(** The predicate that the comments of [isValidJson] and the specification
    describe: at least two tokens, an object first, and then either exactly
    two tokens with an array second, or more with a string second. *)
Definition isValidJson_spec (tokens : list jtok_tkn_t) (tcnt : Z) : bool :=
  match tokens with
  | t0 :: t1 :: _ =>
      (2 <=? tcnt) && JTOK_TYPE_eqb (type t0) JTOK_OBJECT
      && (((tcnt =? 2) && JTOK_TYPE_eqb (type t1) JTOK_ARRAY)
          || ((tcnt >? 2) && JTOK_TYPE_eqb (type t1) JTOK_STRING))
  | _ => false
  end.

(** ** Notions used to state the properties *)

Definition status_of {A : Type} (r : res (JTOK_PARSE_STATUS_t * A))
  : option JTOK_PARSE_STATUS_t :=
  match r with
  | Val (st, _) => Some st
  | _ => None
  end.

(** The status with which the object parser answers a byte that is neither
    the double quote, nor skipped, nor the closing brace, when it expects a
    key. *)
Definition key_state_status (c : ascii) : JTOK_PARSE_STATUS_t :=
  if Ascii.eqb c "{" || Ascii.eqb c "[" || Ascii.eqb c ","
  then JTOK_PARSE_STATUS_OBJ_NOKEY
  else if is_primitive_lead c then JTOK_PARSE_STATUS_KEY_NO_VAL
       else JTOK_PARSE_STATUS_INVAL.

(** Every byte of [s] satisfies [f]. *)
Fixpoint all_chars (f : ascii -> bool) (s : string) : bool :=
  match s with
  | EmptyString => true
  | String c s' => f c && all_chars f s'
  end.

(** An array parser for the closed examples, whose texts hold no array: it
    is not called there, and a call would show as [Fault]. *)
Definition absent_array_parser : jtok_parser_t -> Z -> outcome :=
  fun _ _ => Fault.

(** The text [{"a":1,"b":2}]. *)
Definition text_a1b2 : string :=
  "{" ++ q ++ "a" ++ q ++ ":1," ++ q ++ "b" ++ q ++ ":2}".

(** The text [{"a":1,}], with a comma before the closing brace. *)
Definition text_trailing_comma : string :=
  "{" ++ q ++ "a" ++ q ++ ":1,}".

(** The text [{"a":1 {}}]: an object after the first value. *)
Definition text_primitive_object : string := "{" ++ q ++ "a" ++ q ++ ":1 {}}".

(** A context of the object parser on such a text, at the byte after the
    first value and the space (offset 7), with the key ["a"] as the
    superior token and three tokens taken. *)
Definition second_value_state (text : string) : jtok_parser_t :=
  mk_parser 7 3 1 text (Z.of_nat (strlen text)) 1
    (Some [ mk_tkn JTOK_OBJECT 0 (-1) 1 (-1) (-1) (Some text);
            mk_tkn JTOK_STRING 2 3 1 0 (-1) (Some text);
            mk_tkn JTOK_PRIMITIVE 5 6 0 1 (-1) (Some text);
            blank_tkn; blank_tkn ]) 5.

(** The context of the object parser on the text [{1:2}] after the opening
    brace. *)
Definition unquoted_key_state : jtok_parser_t :=
  mk_parser 1 1 0 "{1:2}" 5 (-1)
    (Some [ mk_tkn JTOK_OBJECT 0 (-1) 0 (-1) (-1) (Some "{1:2}") ]) 1.

(** ** [jsons_parser.c]: [json_parse] *)

Section JsonParse.

(** The nesting limit and the three parse routines, as for the object
    parser. *)
Variable JTOK_MAX_RECURSE_DEPTH : Z.
Variable string_parser : jtok_parser_t -> outcome.
Variable primitive_parser : jtok_parser_t -> outcome.
Variable array_parser : jtok_parser_t -> Z -> outcome.

(** The [int] value of a status and the token type of value 0: the two
    enumerations are declared in [inc/jtok.h], which is not part of the
    sources at hand. *)
Variable status_code : JTOK_PARSE_STATUS_t -> Z.
Variable zero_type : JTOK_TYPE_t.

Definition JSON_TKN_CNT : Z := 20.

(** A token after [memset(tkns, 0, sizeof(tkns))]. *)
Definition zeroed_tkn : jtok_tkn_t := mk_tkn zero_type 0 0 0 0 0 None.

(** [json_parse]: [tkns] is the static token array as the call finds it;
    the result is the [int] returned and the array as the call leaves it.
    The parse table is empty, so [k_max] is 0, the loop over the table is
    not entered and [k >= k_max] holds after it. *)
Definition json_parse (tkns : list jtok_tkn_t) (json_text : option string)
  : res (Z * list jtok_tkn_t) :=
  let json_parse_status := 0 in
  r <- jtok_parse JTOK_MAX_RECURSE_DEPTH string_parser primitive_parser
                  array_parser json_text (Some tkns) JSON_TKN_CNT ;;
  let '(jtok_retval, pool) := r in
  tkns <- of_option pool ;;
  if negb (status_is_ok jtok_retval) then
    Val (status_code jtok_retval, map (fun _ => zeroed_tkn) tkns)
  else
    valid <- isValidJson (Some tkns) JSON_TKN_CNT ;;
    if valid then
      let k_max := 0 in
      let k := 0 in
      if k >=? k_max then Val (-1, tkns) else Val (json_parse_status, tkns)
    else Val (1, tkns).

End JsonParse.

(** ** Notions used to state further properties *)

(** The status with which the object parser answers a byte that does not
    fit what it expects, for the three states after the key; [None] for the
    bytes that fit the state or are skipped. *)
Definition misplaced_status (e : expecting_t) (c : ascii)
  : option JTOK_PARSE_STATUS_t :=
  if is_skipped c || Ascii.eqb c NUL then None
  else
    match e with
    | OBJECT_KEY => None
    | OBJECT_COLON =>
        if Ascii.eqb c ":" then None
        else if Ascii.eqb c "{" || Ascii.eqb c "[" || Ascii.eqb c dquote
        then Some JTOK_PARSE_STATUS_VAL_NO_COLON
        else if Ascii.eqb c "}" || is_primitive_lead c
        then Some JTOK_PARSE_STATUS_KEY_NO_VAL
        else if Ascii.eqb c "," then Some JTOK_PARSE_STATUS_OBJ_NOKEY
        else Some JTOK_PARSE_STATUS_INVAL
    | OBJECT_VALUE =>
        if Ascii.eqb c "{" || Ascii.eqb c "[" || Ascii.eqb c dquote
           || is_primitive_lead c
        then None
        else if Ascii.eqb c "}" then Some JTOK_PARSE_STATUS_KEY_NO_VAL
        else if Ascii.eqb c "," then Some JTOK_PARSE_STATUS_OBJ_NOKEY
        else Some JTOK_PARSE_STATUS_INVAL
    | OBJECT_COMMA =>
        if Ascii.eqb c "," || Ascii.eqb c "}" then None
        else if Ascii.eqb c dquote then Some JTOK_PARSE_STATUS_VAL_NO_COMMA
        else if is_primitive_lead c then Some JTOK_PARSE_STATUS_KEY_NO_VAL
        else Some JTOK_PARSE_STATUS_INVAL
    end.

(** What the closed object holds, seen from a context. *)
Definition object_closed_at (p : jtok_parser_t) (oti : Z) : Prop :=
  exists obj : jtok_tkn_t,
    tokens_get p oti = Val obj /\ type obj = JTOK_OBJECT /\
    end_ obj = pos p + 1.

(** The text [{"a" 1}], without a colon, and the context of the object
    parser at the byte [1] (offset 5), the key parsed and a colon
    expected. *)
Definition text_missing_colon : string := "{" ++ q ++ "a" ++ q ++ " 1}".
Definition missing_colon_state : jtok_parser_t :=
  mk_parser 5 2 0 text_missing_colon 8 1
    (Some [ mk_tkn JTOK_OBJECT 0 (-1) 1 (-1) (-1) (Some text_missing_colon);
            mk_tkn JTOK_STRING 2 3 0 0 (-1) (Some text_missing_colon) ]) 2.

(** The context of the object parser on the text [{"a":1}] at the colon
    (offset 4), the key parsed and a colon expected. *)
Definition colon_state : jtok_parser_t :=
  mk_parser 4 2 0 text_a1 7 1
    (Some [ mk_tkn JTOK_OBJECT 0 (-1) 1 (-1) (-1) (Some text_a1);
            mk_tkn JTOK_STRING 2 3 0 0 (-1) (Some text_a1);
            blank_tkn ]) 3.

(** The text [{"a":01}], whose value is not a number, and the context of
    the object parser at the byte [0] (offset 5), a value expected. *)
Definition text_bad_primitive : string := "{" ++ q ++ "a" ++ q ++ ":01}".
Definition bad_primitive_state : jtok_parser_t :=
  mk_parser 5 2 1 text_bad_primitive 9 1
    (Some [ mk_tkn JTOK_OBJECT 0 (-1) 1 (-1) (-1) (Some text_bad_primitive);
            mk_tkn JTOK_STRING 2 3 0 0 (-1) (Some text_bad_primitive);
            blank_tkn ]) 3.

(** * Properties *)

Lemma JTOK_TYPE_eqb_refl : forall t, JTOK_TYPE_eqb t t = true.
Proof. destruct t; reflexivity. Qed.

Lemma JTOK_TYPE_eqb_eq : forall a b, JTOK_TYPE_eqb a b = true <-> a = b.
Proof. destruct a, b; simpl; split; intro H; try reflexivity; discriminate. Qed.

Lemma JTOK_TYPE_eqb_neq : forall a b, a <> b -> JTOK_TYPE_eqb a b = false.
Proof.
  intros a b H. destruct (JTOK_TYPE_eqb a b) eqn:E; [|reflexivity].
  apply JTOK_TYPE_eqb_eq in E. contradiction.
Qed.

(** ** The token comparator *)

(** Whatever the two tokens hold, [jtok_toktokcmp] answers [true] as soon as
    their types agree: the table entry is converted, not called. *)
Lemma jtok_toktokcmp_same_type :
  forall a b : jtok_tkn_t,
    type a = type b -> is_populated (type a) = true ->
    jtok_toktokcmp a b = Val true.
Proof.
  intros a b Hty Hpop. unfold jtok_toktokcmp.
  rewrite <- Hty, JTOK_TYPE_eqb_refl.
  destruct (type a); try discriminate Hpop; reflexivity.
Qed.

Lemma jtok_toktokcmp_other_type :
  forall a b : jtok_tkn_t,
    type a <> type b -> jtok_toktokcmp a b = Val false.
Proof.
  intros a b Hty. unfold jtok_toktokcmp.
  rewrite (JTOK_TYPE_eqb_neq _ _ Hty). reflexivity.
Qed.

(** C1: [jtok_toktokcmp] is claimed to call the comparator of the tokens'
    type and to return its result.  On the key ["a"] and the value ["b"] of
    [{"a":"b"}], two STRING tokens, the comparator of the table is
    [jtok_toktokcmp_string] and the payloads differ; on the objects of [{}]
    and of [{"a":1}] the comparator of the table is [jtok_toktokcmp_object]
    and it answers [false]; yet the function returns [true] on both
    pairs. *)
Theorem jtok_toktokcmp_does_not_call_comparator :
  (type tkn_ab_key = type tkn_ab_value /\
   tokcmp_funcs (type tkn_ab_key) = Some addr_jtok_toktokcmp_string /\
   payload tkn_ab_key = "a" /\ payload tkn_ab_value = "b" /\
   jtok_toktokcmp_string tkn_ab_key tkn_ab_value = false /\
   jtok_toktokcmp tkn_ab_key tkn_ab_value = Val true) /\
  (type tkn_empty_object = type tkn_a1_object /\
   tokcmp_funcs (type tkn_empty_object) = Some addr_jtok_toktokcmp_object /\
   jtok_toktokcmp_object [tkn_empty_object]
                         [tkn_a1_object; tkn_a1_key; tkn_a1_value] 0 0
   = Val false /\
   jtok_toktokcmp tkn_empty_object tkn_a1_object = Val true).
Proof. repeat split. Qed.

(** C9: for every populated token [a] (of type PRIMITIVE, OBJECT, ARRAY or
    STRING), [jtok_toktokcmp a a] returns [true]. *)
Theorem jtok_toktokcmp_refl :
  forall a : jtok_tkn_t,
    is_populated (type a) = true -> jtok_toktokcmp a a = Val true.
Proof.
  intros a Hpop. unfold jtok_toktokcmp. rewrite JTOK_TYPE_eqb_refl.
  destruct (type a); try discriminate Hpop; reflexivity.
Qed.

Lemma jtok_toktokcmp_refl_witness :
  is_populated (type tkn_a1_object) = true /\
  jtok_toktokcmp tkn_a1_object tkn_a1_object = Val true.
Proof.
  split; [reflexivity | apply (jtok_toktokcmp_refl tkn_a1_object); reflexivity].
Defined.

(** ** The validity predicate *)

(** What [isValidJson] computes: an OBJECT first is enough, and so is either
    test on the second token alone. *)
Lemma isValidJson_computes :
  forall (t0 t1 : jtok_tkn_t) (rest : list jtok_tkn_t) (tcnt : Z),
    isValidJson (Some (t0 :: t1 :: rest)) tcnt =
    Val ((tcnt >? 1)
         && (JTOK_TYPE_eqb (type t0) JTOK_OBJECT
             || ((tcnt =? 2) && JTOK_TYPE_eqb (type t1) JTOK_ARRAY)
             || ((tcnt >? 2) && JTOK_TYPE_eqb (type t1) JTOK_STRING))).
Proof.
  intros t0 t1 rest tcnt. unfold isValidJson, get_tkn. simpl.
  destruct (tcnt >? 1) eqn:H1; [|reflexivity].
  destruct (tcnt =? 2) eqn:H2.
  - apply Z.eqb_eq in H2. subst tcnt. simpl.
    destruct (JTOK_TYPE_eqb (type t0) JTOK_OBJECT),
             (JTOK_TYPE_eqb (type t1) JTOK_ARRAY); reflexivity.
  - assert (H3 : (tcnt >? 2) = true) by lia. rewrite H3. simpl.
    destruct (JTOK_TYPE_eqb (type t0) JTOK_OBJECT),
             (JTOK_TYPE_eqb (type t1) JTOK_STRING); reflexivity.
Qed.

(** C4: [isValidJson] is claimed to hold exactly when there are at least two
    tokens, the first is an OBJECT, and the second is an ARRAY (two tokens)
    or a STRING (more).  On the first two tokens of [{"a":1}], an OBJECT and
    a STRING, with a count of 2 (the shape that the comment in the code rules
    out) the predicate of the claim is [false] and the function returns
    [true]; and on a STRING followed by a STRING with a count of 3 as well. *)
Theorem isValidJson_accepts_more_than_claimed :
  isValidJson_spec [tkn_a1_object; tkn_a1_key] 2 = false /\
  isValidJson (Some [tkn_a1_object; tkn_a1_key]) 2 = Val true /\
  isValidJson_spec [tkn_a1_key; tkn_a1_key; tkn_a1_value] 3 = false /\
  isValidJson (Some [tkn_a1_key; tkn_a1_key; tkn_a1_value]) 3 = Val true.
Proof. repeat split. Qed.

(** ** Comparison with a literal *)

(** C5: [jtok_tokcmp] is claimed to hold exactly when the literal is
    byte-wise equal to the token's payload.  The value token of [{"a":1}] has
    the payload ["1"], of which the literal ["1}"] is a strict extension, and
    the function returns [true]: the comparison runs over the longer of the
    two lengths and reads the text that follows the token.  The same happens
    for the key ["a"] and the literals that go on with the closing quote. *)
Theorem jtok_tokcmp_reads_past_token :
  payload tkn_a1_value = "1" /\
  jtok_tokcmp (Some "1}") (Some tkn_a1_value) = Val true /\
  payload tkn_a1_key = "a" /\
  jtok_tokcmp (Some ("a" ++ q)) (Some tkn_a1_key) = Val true /\
  jtok_tokcmp (Some ("a" ++ q ++ ":1}")) (Some tkn_a1_key) = Val true.
Proof. repeat split. Qed.

(** ** Where the comparison with a literal is exact *)

Lemma strlen_string_from :
  forall (k : nat) (j : string),
    (k <= strlen j)%nat -> strlen (string_from k j) = (strlen j - k)%nat.
Proof.
  induction k as [|k IH]; intros j H.
  - simpl. lia.
  - destruct j as [|c j]; simpl in *; [lia|].
    destruct (Ascii.eqb c NUL); [lia|].
    apply IH. lia.
Qed.

Lemma substring_string_from :
  forall (k n : nat) (j : string),
    String.substring 0 n (string_from k j) = String.substring k n j.
Proof.
  induction k as [|k IH]; intros n j.
  - reflexivity.
  - destruct j as [|c j]; simpl.
    + destruct n; reflexivity.
    + apply IH.
Qed.

(** [strncmp] over [n] bytes, of a literal of at most [n] bytes with a text
    of at least [n] bytes: equality with the first [n] bytes of the text. *)
Lemma strncmp_eq_exact :
  forall (n : nat) (s u : string),
    strlen s = String.length s ->
    (String.length s <= n)%nat ->
    (n <= strlen u)%nat ->
    strncmp_eq s u n = String.eqb s (String.substring 0 n u).
Proof.
  induction n as [|n IH]; intros s u Hs Hle Hu.
  - destruct s; simpl in Hle; [|lia]. destruct u; reflexivity.
  - destruct u as [|c u]; simpl in Hu; [lia|].
    destruct (Ascii.eqb c NUL) eqn:Ec; [lia|].
    destruct s as [|a s].
    + cbn [strncmp_eq head_char tail_string String.substring String.eqb].
      rewrite Ascii.eqb_sym, Ec. reflexivity.
    + simpl in Hs, Hle. destruct (Ascii.eqb a NUL) eqn:Ea; [lia|].
      cbn [strncmp_eq head_char tail_string String.substring String.eqb].
      destruct (Ascii.eqb a c); [|reflexivity].
      rewrite Ea. simpl. apply IH; lia.
Qed.

(** For a token that lies in the text and is shorter than [UINT16_MAX], and
    a literal without a NUL byte that is not longer than the token,
    [jtok_tokcmp] decides the equality of the literal and the payload; a
    literal that is a strict prefix of the payload compares unequal. *)
Lemma jtok_tokcmp_exact_when_not_longer :
  forall (s : string) (t : jtok_tkn_t) (j : string),
    json t = Some j ->
    0 <= start t <= end_ t ->
    end_ t <= Z.of_nat (strlen j) ->
    end_ t - start t < UINT16_MAX ->
    strlen s = String.length s ->
    Z.of_nat (String.length s) <= end_ t - start t ->
    jtok_tokcmp (Some s) (Some t) = Val (String.eqb s (payload t)).
Proof.
  intros s t j Hj Hrange Hend Hshort Hs Hle.
  assert (Hlenj : (strlen j <= String.length j)%nat).
  { clear. induction j as [|c j IH]; simpl; [lia|].
    destruct (Ascii.eqb c NUL); lia. }
  unfold payload. rewrite Hj.
  destruct t as [ty st en sz pa si js]. simpl in *. subst js.
  unfold UINT16_MAX in *.
  rewrite (Z.mod_small (en - st)) by lia.
  assert (H1 : (en - st <? 65535) = true) by lia. rewrite H1.
  rewrite Hs.
  rewrite (Z.mod_small (Z.of_nat (String.length s))) by lia.
  assert (H2 : (en - st <? Z.of_nat (String.length s)) = false) by lia.
  rewrite H2.
  assert (H3 : (st <? 0) = false) by lia.
  assert (H4 : (Z.of_nat (String.length j) <? st) = false) by lia.
  rewrite H3, H4. simpl. f_equal.
  rewrite strncmp_eq_exact.
  - rewrite substring_string_from. reflexivity.
  - exact Hs.
  - lia.
  - rewrite strlen_string_from by lia. lia.
Qed.

(** ** Key lookup *)

(** C10: for every token [t] whose type is not OBJECT and every key,
    [jtok_obj_has_key] returns [INVALID_ARRAY_INDEX], and it does so without
    reading another token: the result is the same in every array that holds
    [t] at the index of [obj]. *)
Theorem jtok_obj_has_key_non_object :
  forall (sz : Z) (tkns : list jtok_tkn_t) (key_str : option string)
         (obj_idx : Z) (t : jtok_tkn_t),
    get_tkn tkns obj_idx = Some t ->
    type t <> JTOK_OBJECT ->
    jtok_obj_has_key sz tkns key_str obj_idx = Val INVALID_ARRAY_INDEX /\
    forall tkns' : list jtok_tkn_t,
      get_tkn tkns' obj_idx = Some t ->
      jtok_obj_has_key sz tkns' key_str obj_idx
      = jtok_obj_has_key sz tkns key_str obj_idx.
Proof.
  intros sz tkns key_str obj_idx t Hget Hty.
  assert (H : forall l, get_tkn l obj_idx = Some t ->
                        jtok_obj_has_key sz l key_str obj_idx
                        = Val INVALID_ARRAY_INDEX).
  { intros l Hl. unfold jtok_obj_has_key. rewrite Hl. simpl.
    rewrite (JTOK_TYPE_eqb_neq _ _ Hty). reflexivity. }
  split.
  - apply H, Hget.
  - intros tkns' Hget'. rewrite (H _ Hget), (H _ Hget'). reflexivity.
Qed.

Lemma jtok_obj_has_key_non_object_witness :
  get_tkn [tkn_a1_object; tkn_a1_key; tkn_a1_value] 1 = Some tkn_a1_key /\
  type tkn_a1_key <> JTOK_OBJECT /\
  jtok_obj_has_key 40 [tkn_a1_object; tkn_a1_key; tkn_a1_value] (Some "a") 1
  = Val INVALID_ARRAY_INDEX.
Proof.
  split; [reflexivity|]. split; [discriminate|].
  refine (proj1 (jtok_obj_has_key_non_object 40
                   [tkn_a1_object; tkn_a1_key; tkn_a1_value] (Some "a") 1
                   tkn_a1_key _ _)).
  - reflexivity.
  - discriminate.
Defined.

(** A key that the loop finds at index [i] is reported as
    [i / sizeof(jtok_tkn_t)]: the difference of the two pointers, which
    already counts tokens, is divided by the size of a token. *)
Lemma has_key_loop_result :
  forall (sz : Z) (tkns : list jtok_tkn_t) (key_str : option string)
         (n : nat) (key_tkn r : Z),
    has_key_loop sz tkns key_str n key_tkn = Val r ->
    r = INVALID_ARRAY_INDEX \/
    exists (i : Z) (k : jtok_tkn_t),
      get_tkn tkns i = Some k /\
      jtok_tokcmp key_str (Some k) = Val true /\
      r = i / sz.
Proof.
  intros sz tkns key_str n. induction n as [|n IH]; intros key_tkn r H.
  - simpl in H. left. congruence.
  - simpl in H.
    destruct (get_tkn tkns key_tkn) as [k|] eqn:Hk; simpl in H; [|discriminate].
    destruct (jtok_tokcmp key_str (Some k)) as [b| |] eqn:Hb; simpl in H;
      try discriminate.
    destruct b.
    + right. exists key_tkn, k. repeat split; try assumption.
      rewrite Z.sub_0_r in H. congruence.
    + destruct (negb (sibling k =? NO_SIBLING_IDX)).
      * apply (IH _ _ H).
      * left. congruence.
Qed.

(** ** The object parser: the loop *)

Lemma list_update_of_nth_error :
  forall (A : Type) (f : A -> A) (l : list A) (n : nat) (x : A),
    nth_error l n = Some x -> exists l', list_update l n f = Some l'.
Proof.
  intros A f l. induction l as [|y l IH]; intros n x H.
  - destruct n; discriminate.
  - destruct n as [|n]; simpl.
    + eauto.
    + simpl in H. destruct (IH _ _ H) as [l' Hl']. rewrite Hl'. eauto.
Qed.

Lemma tokens_upd_of_get :
  forall (p : jtok_parser_t) (i : Z) (t : jtok_tkn_t)
         (f : jtok_tkn_t -> jtok_tkn_t),
    tokens_get p i = Val t ->
    exists tks', tokens_upd p i f = Val (set_tkn_pool p (Some tks')).
Proof.
  intros p i t f H. unfold tokens_get, tokens_upd in *.
  destruct (tkn_pool p) as [tks|]; simpl in *; [|discriminate].
  unfold get_tkn, upd_tkn in *.
  destruct (i <? 0); simpl in *; [discriminate|].
  destruct (nth_error tks (Z.to_nat i)) as [x|] eqn:E; simpl in H;
    [|discriminate].
  destruct (list_update_of_nth_error _ f _ _ _ E) as [l' Hl'].
  rewrite Hl'. simpl. eauto.
Qed.

Section ObjectLoopFacts.

Variable sp pp : jtok_parser_t -> outcome.
Variable ap op : jtok_parser_t -> Z -> outcome.
Variable depth start0 : Z.
Variable js : string.
Variable len oti : Z.

Local Abbreviation step := (object_step sp pp ap op depth start0 js oti).
Local Abbreviation loop := (object_loop sp pp ap op depth start0 js len oti).

(** A pass of the loop body that leaves a status other than OK ends the
    invocation with that status, after the increment of [pos]. *)
Lemma object_loop_failed_step :
  forall (fuel : nat) (e e' : expecting_t) (p p' : jtok_parser_t)
         (st : JTOK_PARSE_STATUS_t),
    pos p < len -> char_at js (pos p) <> NUL ->
    step e p = Val (Next st e' p') ->
    status_is_ok st = false ->
    loop (S (S fuel)) JTOK_PARSE_STATUS_OK e p = Val (st, incr_pos p').
Proof.
  intros fuel e e' p p' st Hlen Hnul Hstep Hst.
  cbn [object_loop].
  apply Z.ltb_lt in Hlen. rewrite Hlen.
  apply Ascii.eqb_neq in Hnul. rewrite Hnul. simpl.
  rewrite Hstep. simpl. rewrite Hst.
  rewrite !andb_false_r. reflexivity.
Qed.

(** A [return] inside the loop body ends the invocation at once. *)
Lemma object_loop_return :
  forall (fuel : nat) (e : expecting_t) (p p' : jtok_parser_t)
         (st : JTOK_PARSE_STATUS_t),
    pos p < len -> char_at js (pos p) <> NUL ->
    step e p = Val (Return_ st p') ->
    loop (S fuel) JTOK_PARSE_STATUS_OK e p = Val (st, p').
Proof.
  intros fuel e p p' st Hlen Hnul Hstep.
  cbn [object_loop].
  apply Z.ltb_lt in Hlen. rewrite Hlen.
  apply Ascii.eqb_neq in Hnul. rewrite Hnul. simpl.
  rewrite Hstep. reflexivity.
Qed.

(** A pass that leaves the status OK goes on with the next byte. *)
Lemma object_loop_next :
  forall (fuel : nat) (e e' : expecting_t) (p p' : jtok_parser_t),
    pos p < len -> char_at js (pos p) <> NUL ->
    step e p = Val (Next JTOK_PARSE_STATUS_OK e' p') ->
    loop (S fuel) JTOK_PARSE_STATUS_OK e p
    = loop fuel JTOK_PARSE_STATUS_OK e' (incr_pos p').
Proof.
  intros fuel e e' p p' Hlen Hnul Hstep.
  cbn [object_loop].
  apply Z.ltb_lt in Hlen. rewrite Hlen.
  apply Ascii.eqb_neq in Hnul. rewrite Hnul. simpl.
  rewrite Hstep. reflexivity.
Qed.

(** The pass of the loop body on a byte that cannot start or end anything
    when a key is expected. *)
Lemma object_step_key_state :
  forall (p : jtok_parser_t) (super : jtok_tkn_t),
    char_at js (pos p) <> dquote ->
    char_at js (pos p) <> "}"%char ->
    is_skipped (char_at js (pos p)) = false ->
    tokens_get p (toksuper p) = Val super ->
    exists p',
      step OBJECT_KEY p
      = Val (Next (key_state_status (char_at js (pos p))) OBJECT_KEY p') /\
      tkn_pool p' = tkn_pool p.
Proof.
  intros p super Hq Hb Hs Hsuper.
  unfold object_step, key_state_status.
  apply Ascii.eqb_neq in Hq, Hb. rewrite Hq, Hb, Hs.
  destruct (Ascii.eqb (char_at js (pos p)) "{") eqn:E1; simpl.
  { eauto. }
  destruct (Ascii.eqb (char_at js (pos p)) "[") eqn:E2; simpl.
  { eauto. }
  destruct (Ascii.eqb (char_at js (pos p)) ":") eqn:E3; simpl.
  { apply Ascii.eqb_eq in E3. rewrite E3. simpl. eauto. }
  destruct (Ascii.eqb (char_at js (pos p)) ",") eqn:E4; simpl.
  { eauto. }
  destruct (is_primitive_lead (char_at js (pos p))) eqn:E5.
  { unfold step_primitive. rewrite Hsuper. simpl. eauto. }
  eauto.
Qed.

End ObjectLoopFacts.

Lemma key_state_status_not_ok :
  forall c : ascii, status_is_ok (key_state_status c) = false.
Proof.
  intro c. unfold key_state_status.
  destruct (Ascii.eqb c "{" || Ascii.eqb c "[" || Ascii.eqb c ",");
    [reflexivity|].
  destruct (is_primitive_lead c); reflexivity.
Qed.

(** A nested object parser that fails makes the invocation that called it
    fail with the same status. *)
Lemma object_loop_nested_failure :
  forall (sp pp : jtok_parser_t -> outcome)
         (ap op : jtok_parser_t -> Z -> outcome)
         (depth start0 : Z) (js : string) (len oti : Z) (fuel : nat)
         (p p1 : jtok_parser_t) (st : JTOK_PARSE_STATUS_t),
    pos p < len -> char_at js (pos p) = "{"%char ->
    op p (depth + 1) = Val (st, p1) ->
    status_is_ok st = false ->
    object_loop sp pp ap op depth start0 js len oti (S (S fuel))
                JTOK_PARSE_STATUS_OK OBJECT_VALUE p
    = Val (st, incr_pos p1).
Proof.
  intros sp pp ap op depth start0 js len oti fuel p p1 st Hlen Hc Hop Hst.
  apply object_loop_failed_step with (e' := OBJECT_VALUE); try assumption.
  - rewrite Hc. discriminate.
  - unfold object_step. rewrite Hc. simpl.
    unfold step_lbrace. rewrite Hop. simpl. rewrite Hst. reflexivity.
Qed.

(** C7: a byte that is neither the double quote, nor skipped, nor the
    closing brace, met by the object parser when it expects a key, ends the
    invocation with a status that is not OK: OBJ_NOKEY for an opening brace,
    an opening bracket and a comma, KEY_NO_VAL for a byte that can start a
    primitive, INVAL for a colon and for every other byte.  No token is
    written. *)
Theorem object_parser_non_string_key :
  forall (sp pp : jtok_parser_t -> outcome)
         (ap op : jtok_parser_t -> Z -> outcome)
         (depth start0 : Z) (js : string) (len oti : Z) (fuel : nat)
         (p : jtok_parser_t) (super : jtok_tkn_t),
    pos p < len ->
    char_at js (pos p) <> NUL ->
    char_at js (pos p) <> dquote ->
    char_at js (pos p) <> "}"%char ->
    is_skipped (char_at js (pos p)) = false ->
    tokens_get p (toksuper p) = Val super ->
    exists p' : jtok_parser_t,
      object_loop sp pp ap op depth start0 js len oti (S (S fuel))
                  JTOK_PARSE_STATUS_OK OBJECT_KEY p
      = Val (key_state_status (char_at js (pos p)), p') /\
      key_state_status (char_at js (pos p)) <> JTOK_PARSE_STATUS_OK /\
      tkn_pool p' = tkn_pool p.
Proof.
  intros sp pp ap op depth start0 js len oti fuel p super
         Hlen Hnul Hq Hb Hs Hsuper.
  destruct (object_step_key_state sp pp ap op depth start0 js oti p super
              Hq Hb Hs Hsuper) as [p' [Hstep Hpool]].
  exists (incr_pos p'). split; [|split].
  - apply object_loop_failed_step with (e' := OBJECT_KEY); try assumption.
    apply key_state_status_not_ok.
  - intro H. pose proof (key_state_status_not_ok (char_at js (pos p))) as K.
    rewrite H in K. discriminate.
  - exact Hpool.
Qed.

(** The closing brace met when a key is expected closes the object, whether
    a comma came before it or not: the outcome is OK, or INVAL when the
    token of the object is not an OBJECT or no token was allocated. *)
Lemma object_loop_rbrace_key_state :
  forall (sp pp : jtok_parser_t -> outcome)
         (ap op : jtok_parser_t -> Z -> outcome)
         (depth start0 : Z) (js : string) (len oti : Z) (fuel : nat)
         (p : jtok_parser_t) (obj : jtok_tkn_t),
    pos p < len -> char_at js (pos p) = "}"%char ->
    tokens_get p oti = Val obj ->
    exists p' : jtok_parser_t,
      object_loop sp pp ap op depth start0 js len oti (S fuel)
                  JTOK_PARSE_STATUS_OK OBJECT_KEY p
      = Val (if negb (JTOK_TYPE_eqb (type obj) JTOK_OBJECT)
                || (toknext p =? 0)
             then JTOK_PARSE_STATUS_INVAL else JTOK_PARSE_STATUS_OK, p').
Proof.
  intros sp pp ap op depth start0 js len oti fuel p obj Hlen Hc Hobj.
  assert (Hnul : char_at js (pos p) <> NUL) by (rewrite Hc; discriminate).
  destruct (tokens_upd_of_get p oti obj (fun t => set_end t (pos p + 1)) Hobj)
    as [tks' Hupd].
  destruct (negb (JTOK_TYPE_eqb (type obj) JTOK_OBJECT) || (toknext p =? 0))
    eqn:E.
  - exists (set_pos p start0).
    apply object_loop_return; try assumption.
    unfold object_step. rewrite Hc. simpl. rewrite Hobj. simpl.
    rewrite E. reflexivity.
  - eexists. apply object_loop_return; try assumption.
    unfold object_step. rewrite Hc. simpl. rewrite Hobj. simpl.
    rewrite E. rewrite Hupd. simpl. reflexivity.
Qed.

(** C2: a comma before the closing brace of an object is claimed to be
    rejected.  The text [{"a":1,}] is parsed with the status OK: the closing
    brace is met when a key is expected and closes the object. *)
Theorem jtok_parse_accepts_trailing_comma :
  forall (MAX : Z) (ap : jtok_parser_t -> Z -> outcome),
    0 <= MAX ->
    status_of (jtok_parse MAX jtok_parse_string jtok_parse_primitive ap
                          (Some text_trailing_comma) (Some (blank_pool 5)) 5)
    = Some JTOK_PARSE_STATUS_OK.
Proof.
  intros MAX ap HM.
  destruct MAX as [|m|m]; [vm_compute; reflexivity | vm_compute; reflexivity|lia].
Qed.

Lemma jtok_parse_accepts_trailing_comma_witness :
  0 <= 8 /\
  status_of (jtok_parse 8 jtok_parse_string jtok_parse_primitive
                        absent_array_parser
                        (Some text_trailing_comma) (Some (blank_pool 5)) 5)
  = Some JTOK_PARSE_STATUS_OK.
Proof.
  split; [lia|].
  apply (jtok_parse_accepts_trailing_comma 8 absent_array_parser). lia.
Defined.

Lemma object_parser_non_string_key_witness :
  exists p' : jtok_parser_t,
    object_loop jtok_parse_string jtok_parse_primitive absent_array_parser
                (jtok_parse_object 8 jtok_parse_string jtok_parse_primitive
                                   absent_array_parser 10)
                0 0 "{1:2}" 5 0 2
                JTOK_PARSE_STATUS_OK OBJECT_KEY unquoted_key_state
    = Val (JTOK_PARSE_STATUS_KEY_NO_VAL, p') /\
    JTOK_PARSE_STATUS_KEY_NO_VAL <> JTOK_PARSE_STATUS_OK /\
    tkn_pool p' = tkn_pool unquoted_key_state.
Proof.
  apply (object_parser_non_string_key
           jtok_parse_string jtok_parse_primitive absent_array_parser
           (jtok_parse_object 8 jtok_parse_string jtok_parse_primitive
                              absent_array_parser 10)
           0 0 "{1:2}" 5 0 0 unquoted_key_state
           (mk_tkn JTOK_OBJECT 0 (-1) 0 (-1) (-1) (Some "{1:2}"))).
  - simpl. lia.
  - simpl. discriminate.
  - simpl. discriminate.
  - simpl. discriminate.
  - reflexivity.
  - reflexivity.
Defined.

(** C7, as stated, fails: the unquoted keys of [{1:2}] and [{a:1}] are
    rejected with KEY_NO_VAL and with INVAL, not with OBJ_NOKEY. *)
Lemma jtok_parse_unquoted_key_status :
  status_of (jtok_parse 8 jtok_parse_string jtok_parse_primitive
                        absent_array_parser
                        (Some "{1:2}") (Some (blank_pool 3)) 3)
  = Some JTOK_PARSE_STATUS_KEY_NO_VAL /\
  status_of (jtok_parse 8 jtok_parse_string jtok_parse_primitive
                        absent_array_parser
                        (Some "{a:1}") (Some (blank_pool 3)) 3)
  = Some JTOK_PARSE_STATUS_INVAL /\
  JTOK_PARSE_STATUS_KEY_NO_VAL <> JTOK_PARSE_STATUS_OBJ_NOKEY /\
  JTOK_PARSE_STATUS_INVAL <> JTOK_PARSE_STATUS_OBJ_NOKEY.
Proof. repeat split; discriminate. Qed.

(** The bytes that can start a primitive reach the primitive case of the
    [switch]. *)
Lemma object_step_primitive_lead :
  forall (sp pp : jtok_parser_t -> outcome)
         (ap op : jtok_parser_t -> Z -> outcome)
         (depth start0 : Z) (js : string) (oti : Z)
         (e : expecting_t) (p : jtok_parser_t),
    is_primitive_lead (char_at js (pos p)) = true ->
    object_step sp pp ap op depth start0 js oti e p
    = step_primitive pp start0 e p.
Proof.
  intros sp pp ap op depth start0 js oti e p H.
  unfold object_step.
  destruct (char_at js (pos p)) as [[] [] [] [] [] [] [] []];
    try (vm_compute in H; discriminate H); reflexivity.
Qed.

Lemma primitive_lead_not_NUL :
  forall c : ascii, is_primitive_lead c = true -> c <> NUL.
Proof. intros c H E. subst c. vm_compute in H. discriminate H. Qed.

(** ** The entry point *)

Lemma char_at_append_length :
  forall ws rest : string,
    char_at (ws ++ rest) (Z.of_nat (String.length ws)) = head_char rest.
Proof.
  intros ws rest. unfold char_at.
  destruct (Z.ltb_spec (Z.of_nat (String.length ws)) 0) as [E|E]; [lia|].
  rewrite Nat2Z.id. clear E.
  induction ws as [|c ws IH]; simpl.
  - destruct rest; reflexivity.
  - exact IH.
Qed.

Lemma skip_space_append :
  forall (ws rest : string) (n : Z),
    all_chars isspace ws = true ->
    isspace (head_char rest) = false ->
    skip_space (ws ++ rest) n = n + Z.of_nat (String.length ws).
Proof.
  intros ws rest. induction ws as [|c ws IH]; intros n Hws Hrest.
  - simpl. destruct rest as [|c r]; simpl in *.
    + lia.
    + rewrite Hrest. lia.
  - simpl in Hws. apply andb_true_iff in Hws. destruct Hws as [Hc Hws].
    cbn [append skip_space String.length]. rewrite Hc.
    rewrite IH by assumption. lia.
Qed.




(** ** Key lookup after a parse *)

(** C3: [jtok_obj_has_key] is claimed to return the index of the key that
    equals the needle.  After the parse of [{"a":1,"b":2}] into five tokens
    the key ["b"] is the token of index 3, and the lookup of ["b"] in the
    object returns 0: the index is divided by the size of a token. *)
Theorem jtok_obj_has_key_divides_index :
  forall (MAX : Z) (ap : jtok_parser_t -> Z -> outcome) (sz : Z),
    0 <= MAX -> 3 < sz ->
    exists (tokens : list jtok_tkn_t) (key : jtok_tkn_t),
      jtok_parse MAX jtok_parse_string jtok_parse_primitive ap
                 (Some text_a1b2) (Some (blank_pool 5)) 5
      = Val (JTOK_PARSE_STATUS_OK, Some tokens) /\
      get_tkn tokens 3 = Some key /\
      type key = JTOK_STRING /\ payload key = "b" /\
      jtok_obj_has_key sz tokens (Some "b") 0 = Val 0.
Proof.
  intros MAX ap sz HM Hsz.
  destruct MAX as [|m|m]; [| |lia].
  - eexists. eexists. split; [vm_compute; reflexivity|].
    split; [reflexivity|]. split; [reflexivity|]. split; [reflexivity|].
    cbv -[Z.div]. rewrite Z.div_small by lia. reflexivity.
  - eexists. eexists. split; [vm_compute; reflexivity|].
    split; [reflexivity|]. split; [reflexivity|]. split; [reflexivity|].
    cbv -[Z.div]. rewrite Z.div_small by lia. reflexivity.
Qed.

Lemma jtok_obj_has_key_divides_index_witness :
  0 <= 8 /\ 3 < 40 /\
  exists (tokens : list jtok_tkn_t) (key : jtok_tkn_t),
    jtok_parse 8 jtok_parse_string jtok_parse_primitive absent_array_parser
               (Some text_a1b2) (Some (blank_pool 5)) 5
    = Val (JTOK_PARSE_STATUS_OK, Some tokens) /\
    get_tkn tokens 3 = Some key /\
    type key = JTOK_STRING /\ payload key = "b" /\
    jtok_obj_has_key 40 tokens (Some "b") 0 = Val 0.
Proof.
  split; [lia|]. split; [lia|].
  apply (jtok_obj_has_key_divides_index 8 absent_array_parser 40); lia.
Defined.

(** ** The first key of the outermost object *)

Lemma string_length_append :
  forall s1 s2 : string,
    String.length (s1 ++ s2) = (String.length s1 + String.length s2)%nat.
Proof.
  intros s1 s2. induction s1 as [|c s1 IH]; simpl; [reflexivity|].
  rewrite IH. reflexivity.
Qed.

Lemma strlen_cons :
  forall (c : ascii) (s : string),
    c <> NUL -> strlen (String c s) = S (strlen s).
Proof.
  intros c s H. simpl. apply Ascii.eqb_neq in H. rewrite H. reflexivity.
Qed.

Lemma strlen_append :
  forall (f : ascii -> bool) (s1 s2 : string),
    f NUL = false -> all_chars f s1 = true ->
    strlen (s1 ++ s2) = (String.length s1 + strlen s2)%nat.
Proof.
  intros f s1 s2 Hf. induction s1 as [|c s1 IH]; intro H; simpl in *.
  - reflexivity.
  - apply andb_true_iff in H. destruct H as [Hc H].
    destruct (Ascii.eqb_spec c NUL) as [E|E].
    + subst c. congruence.
    + rewrite IH by assumption. reflexivity.
Qed.

Lemma is_skipped_dispatch :
  forall c : ascii,
    is_skipped c = true ->
    Ascii.eqb c NUL = false /\ Ascii.eqb c "{" = false /\
    Ascii.eqb c "[" = false /\ Ascii.eqb c "}" = false /\
    Ascii.eqb c dquote = false.
Proof.
  intros c H.
  destruct c as [[] [] [] [] [] [] [] []];
    try (vm_compute in H; discriminate H); repeat split.
Qed.

Lemma is_skipped_isspace :
  forall c : ascii, is_skipped c = true -> isspace c = true.
Proof.
  intros c H.
  destruct c as [[] [] [] [] [] [] [] []];
    try (vm_compute in H; discriminate H); reflexivity.
Qed.

(** The loop skips a run of the four skipped bytes without a change of
    state. *)
Lemma object_loop_skips :
  forall (sp pp : jtok_parser_t -> outcome)
         (ap op : jtok_parser_t -> Z -> outcome)
         (depth start0 : Z) (len oti : Z) (e : expecting_t)
         (sk pre post : string) (fuel : nat) (p : jtok_parser_t),
    all_chars is_skipped sk = true ->
    pos p = Z.of_nat (String.length pre) ->
    pos p + Z.of_nat (String.length sk) <= len ->
    object_loop sp pp ap op depth start0 (pre ++ sk ++ post) len oti
                (String.length sk + fuel) JTOK_PARSE_STATUS_OK e p
    = object_loop sp pp ap op depth start0 (pre ++ sk ++ post) len oti
                  fuel JTOK_PARSE_STATUS_OK e
                  (set_pos p (pos p + Z.of_nat (String.length sk))).
Proof.
  intros sp pp ap op depth start0 len oti e sk.
  induction sk as [|a sk IH]; intros pre post fuel p Hsk Hpos Hlen.
  - simpl. rewrite Z.add_0_r. destruct p; reflexivity.
  - simpl in Hsk. apply andb_true_iff in Hsk. destruct Hsk as [Ha Hsk].
    destruct (is_skipped_dispatch a Ha) as [N0 [N1 [N2 [N3 N4]]]].
    assert (Hc : char_at (pre ++ String a sk ++ post) (pos p) = a).
    { rewrite Hpos. apply (char_at_append_length pre (String a sk ++ post)). }
    cbn [String.length Nat.add].
    rewrite object_loop_next with (e' := e) (p' := p).
    + assert (Hj : pre ++ String a sk ++ post
                   = (pre ++ String a EmptyString) ++ sk ++ post).
      { clear. induction pre as [|c pre IH]; simpl; [reflexivity|].
        f_equal. exact IH. }
      rewrite Hj.
      rewrite (IH (pre ++ String a EmptyString) post fuel (incr_pos p) Hsk).
      * f_equal. unfold incr_pos, set_pos. simpl.
        f_equal. cbn [String.length] in *. lia.
      * unfold incr_pos. simpl. rewrite string_length_append. simpl. lia.
      * unfold incr_pos. simpl. cbn [String.length] in Hlen. lia.
    + cbn [String.length] in Hlen. lia.
    + rewrite Hc. apply Ascii.eqb_neq. exact N0.
    + unfold object_step. rewrite Hc, N1, N2, N3, N4, Ha. reflexivity.
Qed.

(** The entry of the object parser on an opening brace, with a free slot
    in the token array: the object takes the slot 0 and the loop starts
    after the brace, a key expected. *)
Lemma jtok_parse_object_enter :
  forall (MAX : Z) (sp pp : jtok_parser_t -> outcome)
         (ap : jtok_parser_t -> Z -> outcome)
         (fuel : nat) (p : jtok_parser_t)
         (t0 : jtok_tkn_t) (ts : list jtok_tkn_t),
    0 <= MAX ->
    tkn_pool p = Some (t0 :: ts) ->
    toknext p = 0 ->
    1 <= pool_size p ->
    char_at (json_str p) (pos p) = "{"%char ->
    exists t0' : jtok_tkn_t,
      jtok_parse_object MAX sp pp ap fuel p 0
      = object_loop sp pp ap
          (fun p' d' =>
             match fuel with
             | O => OutOfFuel
             | S fuel' => jtok_parse_object MAX sp pp ap fuel' p' d'
             end)
          0 (pos p) (json_str p) (json_len p) 0
          fuel JTOK_PARSE_STATUS_OK OBJECT_KEY
          (mk_parser (pos p + 1) 1 0 (json_str p) (json_len p) NO_CHILD_IDX
                     (Some (t0' :: ts)) (pool_size p)).
Proof.
  intros MAX sp pp ap fuel p t0 ts HM Hpool Hnext Hsize Hc.
  assert (Hgt : (0 >? MAX) = false) by lia.
  assert (Hfull : (0 =? pool_size p) = false) by lia.
  destruct p as [ps tn tsup jsn jl lc tp psz]. simpl in *. subst tn tp.
  eexists.
  destruct fuel; cbn [jtok_parse_object];
    simpl; rewrite Hgt, Hc; simpl;
    unfold jtok_alloc_token; simpl; rewrite Hfull; simpl;
    reflexivity.
Qed.

(** The first byte after the opening brace of the outermost object and any
    skipped bytes: when it is neither the double quote, nor the closing
    brace, [jtok_parse] returns the status of [key_state_status], with a
    capacity that [jtok_new_parser] receives as 1 or more. *)
Lemma jtok_parse_first_key_rejected :
  forall (MAX : Z) (sp pp : jtok_parser_t -> outcome)
         (ap : jtok_parser_t -> Z -> outcome)
         (ws sk rest : string) (c : ascii)
         (t0 : jtok_tkn_t) (ts : list jtok_tkn_t) (size_ : Z),
    0 <= MAX -> 1 <= size_ -> 1 <= to_unsigned_int size_ ->
    all_chars isspace ws = true ->
    all_chars is_skipped sk = true ->
    c <> NUL -> c <> dquote -> c <> "}"%char -> is_skipped c = false ->
    status_of (jtok_parse MAX sp pp ap
                 (Some (ws ++ String "{" (sk ++ String c rest)))
                 (Some (t0 :: ts)) size_)
    = Some (key_state_status c).
Proof.
  intros MAX sp pp ap ws sk rest c t0 ts size_
         HM Hsize Hcap Hws Hsk Hnul Hq Hb Hs.
  set (text := ws ++ String "{" (sk ++ String c rest)).
  unfold jtok_parse.
  assert (Hlt : (size_ <? 1) = false) by lia. rewrite Hlt.
  assert (Hskip : skip_space text 0 = Z.of_nat (String.length ws)).
  { unfold text. rewrite skip_space_append; [lia | assumption | reflexivity]. }
  rewrite Hskip.
  set (p0 := set_pos (jtok_new_parser text (t0 :: ts)
                                      (to_unsigned_int size_))
                     (Z.of_nat (String.length ws))).
  assert (Hc0 : char_at (json_str p0) (pos p0) = "{"%char).
  { simpl. unfold text. rewrite char_at_append_length. reflexivity. }
  destruct (jtok_parse_object_enter MAX sp pp ap (S (String.length text)) p0
              t0 ts HM eq_refl eq_refl Hcap Hc0) as [t0' Henter].
  rewrite Henter. clear Henter.
  match goal with
  | |- context [object_loop _ _ _ ?o] => set (op := o)
  end.
  unfold p0.
  cbn [pos json_str json_len pool_size set_pos jtok_new_parser].
  set (len := Z.of_nat (strlen text)).
  (* the text, cut at the first key byte *)
  set (pre := ws ++ String "{" EmptyString).
  assert (Htext : text = pre ++ sk ++ String c rest).
  { unfold text, pre. clear. induction ws as [|a ws IH]; simpl; [reflexivity|].
    f_equal. exact IH. }
  assert (Hpre : String.length pre = S (String.length ws)).
  { unfold pre. rewrite string_length_append. simpl. lia. }
  assert (Hlen : len
                 = Z.of_nat (String.length ws) + 1
                   + Z.of_nat (String.length sk)
                   + Z.of_nat (strlen (String c rest))).
  { unfold len, text.
    rewrite (strlen_append isspace) by (assumption || reflexivity).
    rewrite (strlen_cons "{") by discriminate.
    rewrite (strlen_append is_skipped) by (assumption || reflexivity).
    lia. }
  assert (Hc1 : (1 <= strlen (String c rest))%nat).
  { rewrite strlen_cons by assumption. lia. }
  assert (Hfuel : S (String.length text)
                  = (String.length sk
                     + S (S (S (String.length ws + String.length rest))))%nat).
  { rewrite Htext, !string_length_append, Hpre. cbn [String.length]. lia. }
  rewrite Hfuel, Htext.
  rewrite object_loop_skips;
    [| assumption | cbn [pos]; rewrite Hpre; lia | cbn [pos]; lia].
  cbn [pos].
  set (p2 := set_pos _ _).
  assert (Hc2 : char_at (pre ++ sk ++ String c rest) (pos p2) = c).
  { assert (Hj : pre ++ sk ++ String c rest = (pre ++ sk) ++ String c rest).
    { clear. induction pre as [|a pre IH]; simpl; [reflexivity|].
      f_equal. exact IH. }
    rewrite Hj.
    replace (pos p2) with (Z.of_nat (String.length (pre ++ sk))).
    - apply char_at_append_length.
    - unfold p2. cbn [pos set_pos]. rewrite string_length_append, Hpre. lia. }
  destruct (object_step_key_state sp pp ap op
              0 (Z.of_nat (String.length ws)) (pre ++ sk ++ String c rest) 0
              p2 t0') as [p' [Hstep _]].
  - rewrite Hc2. exact Hq.
  - rewrite Hc2. exact Hb.
  - rewrite Hc2. exact Hs.
  - reflexivity.
  - rewrite Hc2 in Hstep.
    erewrite object_loop_failed_step.
    + reflexivity.
    + unfold p2. cbn [pos set_pos]. lia.
    + rewrite Hc2. exact Hnul.
    + exact Hstep.
    + apply key_state_status_not_ok.
Qed.

(** * Further properties *)

(** ** Lengths, comparison and copy of a token *)

(** X1: [jtok_toklen] returns [end - start] when it is at least 0 and below
    [UINT16_MAX], and 0 otherwise: for a token of 65535 bytes or more, and
    for a token whose end is before its start. *)
Theorem jtok_toklen_value :
  forall t : jtok_tkn_t,
    - 2 ^ 63 <= end_ t - start t < 2 ^ 63 ->
    jtok_toklen (Some t)
    = if (0 <=? end_ t - start t) && (end_ t - start t <? UINT16_MAX)
      then end_ t - start t else 0.
Proof.
  intros t H. unfold jtok_toklen, UINT16_MAX.
  destruct (Z.leb_spec 0 (end_ t - start t)) as [Hpos|Hneg]; cbn [andb].
  - rewrite Z.mod_small by lia. reflexivity.
  - assert (E : (end_ t - start t) mod 2 ^ 64 = end_ t - start t + 2 ^ 64).
    { symmetry. apply (Z.mod_unique _ _ (-1)); lia. }
    rewrite E.
    destruct (Z.ltb_spec (end_ t - start t + 2 ^ 64) 65535); [lia|reflexivity].
Qed.

Lemma jtok_toklen_value_witness :
  jtok_toklen (Some (mk_tkn JTOK_OBJECT 0 (-1) 0 (-1) (-1) None)) = 0.
Proof.
  refine (jtok_toklen_value (mk_tkn JTOK_OBJECT 0 (-1) 0 (-1) (-1) None) _).
  simpl. lia.
Defined.

Lemma strlen_le_length :
  forall j : string, (strlen j <= String.length j)%nat.
Proof.
  induction j as [|c j IH]; simpl; [lia|].
  destruct (Ascii.eqb c NUL); lia.
Qed.

(** X2: for a token and a literal that lie in the text, [jtok_tokcmp]
    compares the literal with the bytes of the text that start at the token
    and are as many as the longer of the token and the literal. *)
Theorem jtok_tokcmp_compares_longer_length :
  forall (s : string) (t : jtok_tkn_t) (j : string),
    json t = Some j ->
    strlen s = String.length s ->
    0 <= start t <= end_ t ->
    end_ t - start t < UINT16_MAX ->
    Z.of_nat (String.length s) < 2 ^ 16 ->
    start t + Z.max (Z.of_nat (String.length s)) (end_ t - start t)
    <= Z.of_nat (strlen j) ->
    jtok_tokcmp (Some s) (Some t)
    = Val (String.eqb s
             (String.substring
                (Z.to_nat (start t))
                (Z.to_nat (Z.max (Z.of_nat (String.length s))
                                 (end_ t - start t)))
                j)).
Proof.
  intros s t j Hj Hs Hrange Hshort Hslen Hin.
  pose proof (strlen_le_length j) as Hlenj.
  destruct t as [ty st en sz pa si js]. simpl in *. subst js.
  unfold UINT16_MAX in *.
  rewrite (Z.mod_small (en - st)) by lia.
  assert (H1 : (en - st <? 65535) = true) by lia. rewrite H1.
  rewrite Hs.
  rewrite (Z.mod_small (Z.of_nat (String.length s))) by lia.
  assert (H3 : (st <? 0) = false) by lia.
  assert (H4 : (Z.of_nat (String.length j) <? st) = false) by lia.
  rewrite H3, H4. simpl. f_equal.
  assert (Hmax : (if en - st <? Z.of_nat (String.length s)
                  then Z.of_nat (String.length s) else en - st)
                 = Z.max (Z.of_nat (String.length s)) (en - st)).
  { destruct (Z.ltb_spec (en - st) (Z.of_nat (String.length s))); lia. }
  rewrite Hmax.
  rewrite strncmp_eq_exact.
  - rewrite substring_string_from. reflexivity.
  - exact Hs.
  - lia.
  - rewrite strlen_string_from by lia. lia.
Qed.

Lemma jtok_tokcmp_compares_longer_length_witness :
  jtok_tokcmp (Some "1}") (Some tkn_a1_value) = Val (String.eqb "1}" "1}").
Proof.
  refine (jtok_tokcmp_compares_longer_length "1}" tkn_a1_value text_a1
            _ _ _ _ _ _).
  - reflexivity.
  - reflexivity.
  - simpl. lia.
  - simpl. unfold UINT16_MAX. lia.
  - simpl. lia.
  - vm_compute. discriminate.
Defined.

(** X3: the bound [n] of [jtok_tokncmp] never shortens the comparison: for
    every [n] up to the longer of the token and the literal the result is
    that of [jtok_tokcmp]. *)
Theorem jtok_tokncmp_small_bound :
  forall (s : string) (t : jtok_tkn_t) (n : Z),
    n <= Z.max (jtok_toklen (Some t)) (Z.of_nat (strlen s) mod 2 ^ 16) ->
    jtok_tokncmp (Some s) (Some t) n = jtok_tokcmp (Some s) (Some t).
Proof.
  intros s t n Hn.
  destruct t as [ty st en sz pa si [j|]]; [|reflexivity].
  unfold jtok_tokncmp, jtok_tokcmp.
  set (l := jtok_toklen _) in *. set (m := Z.of_nat (strlen s) mod 2 ^ 16) in *.
  assert (E : (if (if l <? m then m else l) <? n then n
               else if l <? m then m else l)
              = if l <? m then m else l).
  { destruct (Z.ltb_spec l m);
      match goal with |- context [?a <? n] => destruct (Z.ltb_spec a n) end;
      lia. }
  rewrite E. reflexivity.
Qed.

Lemma jtok_tokncmp_small_bound_witness :
  jtok_tokncmp (Some "a") (Some tkn_a1_key) 1
  = jtok_tokcmp (Some "a") (Some tkn_a1_key).
Proof.
  apply (jtok_tokncmp_small_bound "a" tkn_a1_key 1).
  vm_compute. discriminate.
Defined.

Lemma substring_prefix_length :
  forall (n : nat) (u : string),
    (n <= strlen u)%nat ->
    String.length (String.substring 0 n u) = n /\
    strlen (String.substring 0 n u) = n.
Proof.
  induction n as [|n IH]; intros u H.
  - destruct u; simpl; split; reflexivity.
  - destruct u as [|c u]; simpl in H; [lia|].
    destruct (Ascii.eqb c NUL) eqn:E; [lia|].
    destruct (IH u) as [H1 H2]; [lia|].
    cbn [String.substring String.length strlen]. rewrite E, H1, H2.
    split; reflexivity.
Qed.

(** [strncpy] of [n] bytes from a text of at least [n] bytes into a buffer
    of at least [n] bytes: the first [n] bytes of the buffer are replaced,
    the others are kept, and no NUL is written. *)
Lemma strncpy_exact :
  forall (n : nat) (dst : list ascii) (src : string),
    (n <= strlen src)%nat ->
    (n <= List.length dst)%nat ->
    strncpy dst src n
    = Some (List.app (list_ascii_of_string (String.substring 0 n src))
                     (skipn n dst)).
Proof.
  induction n as [|n IH]; intros dst src Hs Hd.
  - destruct src; reflexivity.
  - destruct src as [|c src]; simpl in Hs; [lia|].
    destruct (Ascii.eqb c NUL) eqn:E; [lia|].
    destruct dst as [|d dst]; simpl in Hd; [lia|].
    cbn [strncpy head_char tail_string String.substring
         list_ascii_of_string skipn app].
    rewrite E, IH by lia. reflexivity.
Qed.

(** X4: [jtok_tokcpy] of a token that lies in the text writes the first
    [min(toklen, bufsize)] bytes of the payload at the start of the buffer
    and leaves the rest of the buffer as it was: no terminating NUL is
    written. *)
Theorem jtok_tokcpy_copies_payload :
  forall (buf : list ascii) (bufsize : Z) (t : jtok_tkn_t) (j : string),
    json t = Some j ->
    0 <= start t <= end_ t ->
    end_ t <= Z.of_nat (strlen j) ->
    end_ t - start t < UINT16_MAX ->
    0 <= bufsize <= Z.of_nat (List.length buf) ->
    jtok_tokcpy (Some buf) bufsize (Some t)
    = Val (Some (List.app
                   (list_ascii_of_string
                      (String.substring
                         (Z.to_nat (start t))
                         (Z.to_nat (Z.min (end_ t - start t) bufsize)) j))
                   (skipn (Z.to_nat (Z.min (end_ t - start t) bufsize)) buf))).
Proof.
  intros buf bufsize t j Hj Hrange Hend Hshort Hbuf.
  pose proof (strlen_le_length j) as Hlenj.
  destruct t as [ty st en sz pa si js]. simpl in *. subst js.
  unfold UINT16_MAX in *.
  rewrite (Z.mod_small (en - st)) by lia.
  assert (H1 : (en - st <? 65535) = true) by lia. rewrite H1.
  assert (H3 : (st <? 0) = false) by lia.
  assert (H4 : (Z.of_nat (String.length j) <? st) = false) by lia.
  rewrite H3, H4. cbn [orb].
  assert (Hmin : (if en - st >? bufsize then bufsize else en - st)
                 = Z.min (en - st) bufsize).
  { destruct (Z.gtb_spec (en - st) bufsize); lia. }
  rewrite Hmin.
  rewrite strncpy_exact.
  - simpl. rewrite substring_string_from. reflexivity.
  - rewrite strlen_string_from by lia. lia.
  - lia.
Qed.

Lemma jtok_tokcpy_copies_payload_witness :
  jtok_tokcpy (Some ["x"; "y"; "z"]%char) 3 (Some tkn_a1_key)
  = Val (Some ["a"; "y"; "z"]%char).
Proof.
  refine (jtok_tokcpy_copies_payload ["x"; "y"; "z"]%char 3 tkn_a1_key text_a1
            _ _ _ _ _).
  - reflexivity.
  - simpl. lia.
  - vm_compute. discriminate.
  - simpl. unfold UINT16_MAX. lia.
  - simpl. lia.
Defined.

(** X5: [jtok_tokncpy] copies the first [min(toklen, bufsize, n)] bytes of
    the payload and leaves the rest of the buffer as it was. *)
Theorem jtok_tokncpy_copies_payload :
  forall (buf : list ascii) (bufsize n : Z) (t : jtok_tkn_t) (j : string),
    json t = Some j ->
    0 <= start t <= end_ t ->
    end_ t <= Z.of_nat (strlen j) ->
    end_ t - start t < UINT16_MAX ->
    0 <= bufsize <= Z.of_nat (List.length buf) ->
    0 <= n ->
    jtok_tokncpy (Some buf) bufsize (Some t) n
    = Val (Some (List.app
                   (list_ascii_of_string
                      (String.substring
                         (Z.to_nat (start t))
                         (Z.to_nat (Z.min (end_ t - start t)
                                          (Z.min bufsize n)))
                         j))
                   (skipn (Z.to_nat (Z.min (end_ t - start t)
                                           (Z.min bufsize n))) buf))).
Proof.
  intros buf bufsize n t j Hj Hrange Hend Hshort Hbuf Hn.
  pose proof (strlen_le_length j) as Hlenj.
  unfold jtok_tokncpy.
  assert (Hc : (if bufsize >? n then n else bufsize) = Z.min bufsize n).
  { destruct (Z.gtb_spec bufsize n); lia. }
  rewrite Hc.
  destruct t as [ty st en sz pa si js]. simpl in *. subst js.
  unfold UINT16_MAX in *.
  rewrite (Z.mod_small (en - st)) by lia.
  assert (H1 : (en - st <? 65535) = true) by lia. rewrite H1.
  assert (H3 : (st <? 0) = false) by lia.
  assert (H4 : (Z.of_nat (String.length j) <? st) = false) by lia.
  rewrite H3, H4. cbn [orb].
  assert (Hmin : (if en - st >? Z.min bufsize n then Z.min bufsize n
                  else en - st)
                 = Z.min (en - st) (Z.min bufsize n)).
  { destruct (Z.gtb_spec (en - st) (Z.min bufsize n)); lia. }
  rewrite Hmin.
  rewrite strncpy_exact.
  - simpl. rewrite substring_string_from. reflexivity.
  - rewrite strlen_string_from by lia. lia.
  - lia.
Qed.

Lemma jtok_tokncpy_copies_payload_witness :
  jtok_tokncpy (Some ["v"; "w"; "x"; "y"; "z"]%char) 5 (Some tkn_a1_object) 2
  = Val (Some ["{"%char; dquote; "x"%char; "y"%char; "z"%char]).
Proof.
  refine (jtok_tokncpy_copies_payload ["v"; "w"; "x"; "y"; "z"]%char 5 2
            tkn_a1_object text_a1 _ _ _ _ _ _).
  - reflexivity.
  - simpl. lia.
  - vm_compute. discriminate.
  - simpl. unfold UINT16_MAX. lia.
  - simpl. lia.
  - lia.
Defined.

Lemma skipn_repeat_NUL :
  forall (k m : nat), skipn k (repeat NUL m) = repeat NUL (m - k).
Proof.
  induction k as [|k IH]; intro m.
  - rewrite Nat.sub_0_r. reflexivity.
  - destruct m as [|m]; [reflexivity|]. simpl. apply IH.
Qed.

Lemma c_string_of_padded :
  forall (s : string) (m : nat),
    strlen s = String.length s ->
    c_string_of (List.app (list_ascii_of_string s) (repeat NUL m)) = s.
Proof.
  induction s as [|c s IH]; intros m H.
  - destruct m; reflexivity.
  - simpl in H. destruct (Ascii.eqb c NUL) eqn:E; [lia|].
    cbn [list_ascii_of_string app c_string_of]. rewrite E.
    rewrite IH by lia. reflexivity.
Qed.

(** X6: copy-out and compare.  A token that lies in the text, copied by
    [jtok_tokcpy] into a zeroed buffer that is longer than the token, leaves
    the payload as the C string of the buffer, and [jtok_tokcmp] of that
    string and the token holds. *)
Theorem jtok_tokcpy_then_tokcmp :
  forall (m : nat) (t : jtok_tkn_t) (j : string),
    json t = Some j ->
    0 <= start t <= end_ t ->
    end_ t <= Z.of_nat (strlen j) ->
    end_ t - start t < Z.of_nat m ->
    Z.of_nat m <= UINT16_MAX ->
    exists buf : list ascii,
      jtok_tokcpy (Some (repeat NUL m)) (Z.of_nat m) (Some t) = Val (Some buf) /\
      c_string_of buf = payload t /\
      jtok_tokcmp (Some (c_string_of buf)) (Some t) = Val true.
Proof.
  intros m t j Hj Hrange Hend Hm Hmax.
  pose proof (strlen_le_length j) as Hlenj.
  assert (Hsub : String.length (payload t) = Z.to_nat (end_ t - start t) /\
                 strlen (payload t) = Z.to_nat (end_ t - start t)).
  { unfold payload. rewrite Hj. rewrite <- substring_string_from.
    apply substring_prefix_length.
    rewrite strlen_string_from by lia. lia. }
  destruct Hsub as [Hlen Hstr].
  assert (Hcopy : jtok_tokcpy (Some (repeat NUL m)) (Z.of_nat m) (Some t)
                  = Val (Some (List.app
                                 (list_ascii_of_string (payload t))
                                 (repeat NUL
                                    (m - Z.to_nat (end_ t - start t)))))).
  { destruct t as [ty st en sz pa si js]. simpl in Hj. subst js.
    unfold payload in *. cbn [json start end_] in *.
    unfold jtok_tokcpy, jtok_toklen. cbn [start end_].
    unfold UINT16_MAX in *.
    rewrite (Z.mod_small (en - st)) by lia.
    assert (H1 : (en - st <? 65535) = true) by lia. rewrite H1.
    assert (H2 : (en - st >? Z.of_nat m) = false) by lia. rewrite H2.
    assert (H3 : (st <? 0) = false) by lia.
    assert (H4 : (Z.of_nat (String.length j) <? st) = false) by lia.
    rewrite H3, H4. cbn [orb].
    rewrite strncpy_exact.
    - simpl. rewrite substring_string_from.
      rewrite skipn_repeat_NUL. reflexivity.
    - rewrite strlen_string_from by lia. lia.
    - rewrite repeat_length. lia. }
  eexists. split; [exact Hcopy|].
  rewrite c_string_of_padded by congruence.
  split; [reflexivity|].
  rewrite (jtok_tokcmp_exact_when_not_longer (payload t) t j);
    try assumption; try congruence;
    try (unfold UINT16_MAX in *; lia).
  rewrite String.eqb_refl. reflexivity.
Qed.

Lemma jtok_tokcpy_then_tokcmp_witness :
  exists buf : list ascii,
    jtok_tokcpy (Some (repeat NUL 4)) (Z.of_nat 4) (Some tkn_a1_key)
    = Val (Some buf) /\
    c_string_of buf = payload tkn_a1_key /\
    jtok_tokcmp (Some (c_string_of buf)) (Some tkn_a1_key) = Val true.
Proof.
  apply (jtok_tokcpy_then_tokcmp 4 tkn_a1_key text_a1).
  - reflexivity.
  - simpl. lia.
  - vm_compute. discriminate.
  - simpl. lia.
  - unfold UINT16_MAX. simpl. lia.
Defined.

(** ** Names of types and statuses *)

(** X7: [jtok_jtokerr_messages] has a message for every status but two,
    NULL_PARAM and NEST_DEPTH_EXCEEDED, for which it returns the null
    pointer; the messages of two different statuses differ; and the status
    that [jtok_parse] returns for a null text is one without a message. *)
Theorem jtok_jtokerr_messages_missing :
  (forall err : JTOK_PARSE_STATUS_t,
      jtok_jtokerr_messages err = None <->
      err = JTOK_PARSE_STATUS_NULL_PARAM \/
      err = JTOK_PARSE_STATUS_NEST_DEPTH_EXCEEDED) /\
  (forall (a b : JTOK_PARSE_STATUS_t) (m : string),
      jtok_jtokerr_messages a = Some m ->
      jtok_jtokerr_messages b = Some m -> a = b) /\
  (forall (MAX : Z) (sp pp : jtok_parser_t -> outcome)
          (ap : jtok_parser_t -> Z -> outcome)
          (tkns pool : option (list jtok_tkn_t)) (size_ : Z)
          (st : JTOK_PARSE_STATUS_t),
      jtok_parse MAX sp pp ap None tkns size_ = Val (st, pool) ->
      jtok_jtokerr_messages st = None).
Proof.
  split; [|split].
  - intro err. split.
    + destruct err; simpl; intro H; try discriminate H; auto.
    + intros [H|H]; subst err; reflexivity.
  - intros a b m Ha Hb.
    destruct a; destruct b; simpl in Ha, Hb;
      try reflexivity; try discriminate Ha; try discriminate Hb;
      rewrite <- Hb in Ha; discriminate Ha.
  - intros MAX sp pp ap tkns pool size_ st H.
    simpl in H. injection H as H _. subst st. reflexivity.
Qed.

(** X8: [jtok_toktypename] returns the null pointer for the unassigned type
    only, and the names of two different types differ. *)
Theorem jtok_toktypename_names :
  (forall ty : JTOK_TYPE_t,
      jtok_toktypename ty = None <-> ty = JTOK_UNASSIGNED_TOKEN) /\
  (forall (a b : JTOK_TYPE_t) (m : string),
      jtok_toktypename a = Some m -> jtok_toktypename b = Some m -> a = b).
Proof.
  split.
  - intro ty. split.
    + destruct ty; simpl; intro H; try discriminate H; reflexivity.
    + intro H. subst ty. reflexivity.
  - intros a b m Ha Hb.
    destruct a; destruct b; simpl in Ha, Hb;
      try reflexivity; try discriminate Ha; try discriminate Hb;
      rewrite <- Hb in Ha; discriminate Ha.
Qed.

(** ** What a successful parse leaves *)

Lemma list_update_nth_error :
  forall (A : Type) (f : A -> A) (l l' : list A) (n k : nat),
    list_update l n f = Some l' ->
    nth_error l' k
    = if Nat.eqb k n then option_map f (nth_error l k) else nth_error l k.
Proof.
  intros A f l. induction l as [|x l IH]; intros l' n k H.
  - destruct n; discriminate H.
  - destruct n as [|n]; simpl in H.
    + injection H as H. subst l'. destruct k; reflexivity.
    + destruct (list_update l n f) as [l''|] eqn:E; [|discriminate H].
      injection H as H. subst l'.
      destruct k as [|k]; [reflexivity|]. simpl. apply (IH _ _ _ E).
Qed.

Lemma tokens_upd_inv :
  forall (p p1 : jtok_parser_t) (i : Z) (f : jtok_tkn_t -> jtok_tkn_t),
    tokens_upd p i f = Val p1 ->
    exists tks tks',
      tkn_pool p = Some tks /\ upd_tkn tks i f = Some tks' /\
      p1 = set_tkn_pool p (Some tks').
Proof.
  intros p p1 i f H. unfold tokens_upd in H.
  destruct (tkn_pool p) as [tks|] eqn:Hp; simpl in H; [|discriminate H].
  destruct (upd_tkn tks i f) as [tks'|] eqn:Hu; simpl in H; [|discriminate H].
  injection H as H. subst p1. exists tks, tks'. repeat split; assumption.
Qed.

(** A write through [f] at the index [i], read back at the index [k]. *)
Lemma tokens_upd_get :
  forall (p p1 : jtok_parser_t) (i k : Z) (f : jtok_tkn_t -> jtok_tkn_t),
    tokens_upd p i f = Val p1 ->
    tokens_get p1 k
    = if k =? i then (t <- tokens_get p k ;; Val (f t)) else tokens_get p k.
Proof.
  intros p p1 i k f H.
  destruct (tokens_upd_inv _ _ _ _ H) as [tks [tks' [Hp [Hu Hp1]]]].
  subst p1. unfold tokens_get. simpl. rewrite Hp. simpl.
  unfold upd_tkn in Hu. unfold get_tkn.
  destruct (Z.ltb_spec i 0) as [Hi|Hi]; [discriminate Hu|].
  destruct (Z.ltb_spec k 0) as [Hk|Hk].
  - destruct (Z.eqb_spec k i); [lia|reflexivity].
  - rewrite (list_update_nth_error _ _ _ _ _ (Z.to_nat k) Hu).
    destruct (Z.eqb_spec k i) as [E|E].
    + subst k. rewrite Nat.eqb_refl.
      destruct (nth_error tks (Z.to_nat i)); reflexivity.
    + assert (N : Nat.eqb (Z.to_nat k) (Z.to_nat i) = false).
      { apply Nat.eqb_neq. lia. }
      rewrite N. reflexivity.
Qed.


(** Case analysis on the results of the calls inside a pass of the loop. *)
Ltac split_step H :=
  unfold bind, of_option in H;
  repeat match type of H with
         | context [match ?x with _ => _ end] => destruct x eqn:?
         | context [if ?b then _ else _] => destruct b eqn:?
         end;
  try discriminate H.

(** The only [return] inside the loop is that of the closing brace. *)
Lemma object_step_return :
  forall (sp pp : jtok_parser_t -> outcome)
         (ap op : jtok_parser_t -> Z -> outcome)
         (depth start0 : Z) (js : string) (oti : Z)
         (e : expecting_t) (p p1 : jtok_parser_t)
         (st : JTOK_PARSE_STATUS_t),
    object_step sp pp ap op depth start0 js oti e p = Val (Return_ st p1) ->
    char_at js (pos p) = "}"%char /\
    (st = JTOK_PARSE_STATUS_OK -> pos p1 = pos p /\ object_closed_at p1 oti).
Proof.
  intros sp pp ap op depth start0 js oti e p p1 st H.
  unfold object_step in H.
  destruct (Ascii.eqb (char_at js (pos p)) "{") eqn:E1.
  { unfold step_lbrace in H. split_step H. }
  destruct (Ascii.eqb (char_at js (pos p)) "[") eqn:E2.
  { unfold step_lbracket in H. split_step H. }
  destruct (Ascii.eqb (char_at js (pos p)) "}") eqn:E3.
  - apply Ascii.eqb_eq in E3. split; [exact E3|]. intro Hok. subst st.
    unfold step_rbrace in H. destruct e; try discriminate H.
    + (* a key is expected *)
      destruct (tokens_get p oti) as [obj| |] eqn:Hobj; simpl in H;
        try discriminate H.
      destruct (negb (JTOK_TYPE_eqb (type obj) JTOK_OBJECT)
                || (toknext p =? 0)) eqn:Hc; [discriminate H|].
      apply orb_false_iff in Hc. destruct Hc as [Hty _].
      apply negb_false_iff, JTOK_TYPE_eqb_eq in Hty.
      destruct (tokens_upd p oti (fun t => set_end t (pos p + 1)))
        as [p2| |] eqn:Hupd; simpl in H; try discriminate H.
      injection H as H. subst p1.
      pose proof (tokens_upd_get _ _ _ oti _ Hupd) as Hget.
      rewrite Z.eqb_refl, Hobj in Hget. simpl in Hget.
      destruct (tokens_upd_inv _ _ _ _ Hupd) as [tks [tks' [_ [_ Hp2]]]].
      subst p2. simpl. split; [reflexivity|].
      exists (set_end obj (pos p + 1)). repeat split; assumption.
    + (* a comma is expected *)
      destruct (tokens_get p oti) as [obj| |] eqn:Hobj; simpl in H;
        try discriminate H.
      destruct (negb (JTOK_TYPE_eqb (type obj) JTOK_OBJECT)
                || (toknext p =? 0)) eqn:Hc; [discriminate H|].
      apply orb_false_iff in Hc. destruct Hc as [Hty _].
      apply negb_false_iff, JTOK_TYPE_eqb_eq in Hty.
      destruct (tokens_upd p oti (fun t => set_end t (pos p + 1)))
        as [p2| |] eqn:Hupd; simpl in H; try discriminate H.
      pose proof (tokens_upd_get _ _ _ oti _ Hupd) as Hget.
      rewrite Z.eqb_refl, Hobj in Hget. simpl in Hget.
      destruct (tokens_upd_inv _ _ _ _ Hupd) as [tks [tks' [_ [_ Hp2]]]].
      subst p2. simpl in H.
      destruct (negb (last_child p =? NO_CHILD_IDX)) eqn:Hlc.
      * match type of H with
        | context [tokens_upd ?q ?i ?f] =>
            destruct (tokens_upd q i f) as [p3| |] eqn:Hupd3; simpl in H;
              try discriminate H;
              pose proof (tokens_upd_get _ _ _ oti _ Hupd3) as Hget3;
              destruct (tokens_upd_inv _ _ _ _ Hupd3)
                as [tks3 [tks3' [_ [_ Hp3]]]]
        end.
        injection H as H. subst p1 p3. simpl. split; [reflexivity|].
        unfold tokens_get in Hget3, Hget |- *. simpl in Hget3, Hget |- *.
        rewrite Hget in Hget3. simpl in Hget3.
        destruct (oti =? last_child p); eexists; (split; [exact Hget3|]);
          split; assumption || reflexivity.
      * injection H as H. subst p1. simpl. split; [reflexivity|].
        exists (set_end obj (pos p + 1)). repeat split; assumption.
  - destruct (Ascii.eqb (char_at js (pos p)) dquote) eqn:E4.
    { unfold step_quote in H. split_step H. }
    destruct (is_skipped (char_at js (pos p))) eqn:E5; [discriminate H|].
    destruct (Ascii.eqb (char_at js (pos p)) ":") eqn:E6.
    { unfold step_colon in H. split_step H. }
    destruct (Ascii.eqb (char_at js (pos p)) ",") eqn:E7.
    { unfold step_comma in H. split_step H. }
    destruct (is_primitive_lead (char_at js (pos p))) eqn:E8.
    { unfold step_primitive in H. split_step H. }
    discriminate H.
Qed.

(** The loop ends with OK only through the [return] of the closing brace:
    on a closing brace inside the text, with the object closed just after
    it. *)
Lemma object_loop_ok :
  forall (sp pp : jtok_parser_t -> outcome)
         (ap op : jtok_parser_t -> Z -> outcome)
         (depth start0 : Z) (js : string) (len oti : Z)
         (fuel : nat) (st : JTOK_PARSE_STATUS_t) (e : expecting_t)
         (p p' : jtok_parser_t),
    object_loop sp pp ap op depth start0 js len oti fuel st e p
    = Val (JTOK_PARSE_STATUS_OK, p') ->
    pos p' < len /\ char_at js (pos p') = "}"%char /\
    object_closed_at p' oti.
Proof.
  intros sp pp ap op depth start0 js len oti fuel.
  induction fuel as [|fuel IH]; intros st e p p' H.
  - discriminate H.
  - cbn [object_loop] in H.
    destruct ((pos p <? len)
              && negb (Ascii.eqb (char_at js (pos p)) NUL)
              && status_is_ok st) eqn:Hc.
    + apply andb_true_iff in Hc. destruct Hc as [Hc _].
      apply andb_true_iff in Hc. destruct Hc as [Hlt _].
      apply Z.ltb_lt in Hlt.
      destruct (object_step sp pp ap op depth start0 js oti e p)
        as [[st1 p1|st1 e1 p1]| |] eqn:Hs; simpl in H; try discriminate H.
      * injection H as H1 H2. subst st1 p1.
        destruct (object_step_return _ _ _ _ _ _ _ _ _ _ _ _ Hs)
          as [Hb Hok].
        destruct (Hok eq_refl) as [Hpos Hclosed].
        rewrite Hpos. repeat split; assumption.
      * apply (IH _ _ _ _ H).
    + destruct (status_is_ok st) eqn:Hst.
      * discriminate H.
      * injection H as H1 H2. subst st. discriminate Hst.
Qed.

(** The object parser, called with a token array, returns OK only on the
    closing brace of the object, and the token it took (the one of index
    [toknext] at the call) is then an OBJECT that ends after that brace. *)
Lemma jtok_parse_object_ok :
  forall (MAX : Z) (sp pp : jtok_parser_t -> outcome)
         (ap : jtok_parser_t -> Z -> outcome)
         (fuel : nat) (p p' : jtok_parser_t) (depth : Z)
         (tks : list jtok_tkn_t),
    tkn_pool p = Some tks ->
    jtok_parse_object MAX sp pp ap fuel p depth
    = Val (JTOK_PARSE_STATUS_OK, p') ->
    pos p' < json_len p /\ char_at (json_str p) (pos p') = "}"%char /\
    object_closed_at p' (toknext p).
Proof.
  intros MAX sp pp ap fuel p p' depth tks Hpool H.
  assert (Hbody :
    exists (op : jtok_parser_t -> Z -> outcome) (p1 : jtok_parser_t),
      object_loop sp pp ap op depth (pos p) (json_str p) (json_len p)
                  (toknext p) fuel JTOK_PARSE_STATUS_OK OBJECT_KEY p1
      = Val (JTOK_PARSE_STATUS_OK, p')).
  { destruct fuel; cbn [jtok_parse_object] in H;
      rewrite Hpool in H;
      (destruct (depth >? MAX); [discriminate H|]);
      (destruct (negb (Ascii.eqb (char_at (json_str p) (pos p)) "{"));
       [discriminate H|]);
      unfold jtok_alloc_token in H;
      (destruct (toknext p =? pool_size p); [discriminate H|]);
      match type of H with
      | context [tokens_upd p ?i ?f] =>
          destruct (tokens_upd p i f) as [q| |] eqn:Hq; simpl in H;
            try discriminate H;
            destruct (tokens_upd_inv _ _ _ _ Hq) as [? [? [_ [_ Eq]]]];
            subst q; simpl in H
      end;
      match type of H with
      | context [tokens_upd ?a ?i ?f] =>
          destruct (tokens_upd a i f) as [q| |] eqn:Hq2; simpl in H;
            try discriminate H;
            destruct (tokens_upd_inv _ _ _ _ Hq2) as [? [? [_ [_ Eq]]]];
            subst q; simpl in H
      end;
      match type of H with
      | context [tokens_upd ?a ?i ?f] =>
          destruct (tokens_upd a i f) as [q| |] eqn:Hq3; simpl in H;
            try discriminate H;
            destruct (tokens_upd_inv _ _ _ _ Hq3) as [? [? [_ [_ Eq]]]];
            subst q; simpl in H
      end;
      replace (toknext p + 1 - 1) with (toknext p) in H by lia;
      eexists; eexists; exact H. }
  destruct Hbody as [op [p1 Hloop]].
  exact (object_loop_ok _ _ _ _ _ _ _ _ _ _ _ _ _ _ Hloop).
Qed.

(** X9: when [jtok_parse] returns OK, whatever the string, primitive and
    array parsers are, the first token of the array is an OBJECT, its end
    lies in the text, and the byte before its end is a closing brace. *)
Theorem jtok_parse_ok_closes_object :
  forall (MAX : Z) (sp pp : jtok_parser_t -> outcome)
         (ap : jtok_parser_t -> Z -> outcome)
         (text : string) (tokens : list jtok_tkn_t) (size_ : Z)
         (pool : option (list jtok_tkn_t)),
    jtok_parse MAX sp pp ap (Some text) (Some tokens) size_
    = Val (JTOK_PARSE_STATUS_OK, pool) ->
    exists (tks : list jtok_tkn_t) (obj : jtok_tkn_t),
      pool = Some tks /\ get_tkn tks 0 = Some obj /\
      type obj = JTOK_OBJECT /\
      0 < end_ obj <= Z.of_nat (strlen text) /\
      char_at text (end_ obj - 1) = "}"%char.
Proof.
  intros MAX sp pp ap text tokens size_ pool H.
  unfold jtok_parse in H.
  destruct (size_ <? 1); [discriminate H|].
  match type of H with
  | context [jtok_parse_object _ _ _ _ ?f ?p ?d] =>
      destruct (jtok_parse_object MAX sp pp ap f p d) as [[st p']| |] eqn:Hp;
        simpl in H; try discriminate H
  end.
  injection H as H1 H2. subst st pool.
  eapply jtok_parse_object_ok in Hp; [|reflexivity].
  simpl in Hp. destruct Hp as [Hlt [Hb [obj [Hget [Hty Hend]]]]].
  unfold tokens_get in Hget.
  destruct (tkn_pool p') as [tks|]; simpl in Hget; [|discriminate Hget].
  destruct (get_tkn tks 0) as [o|] eqn:Ho; simpl in Hget; [|discriminate Hget].
  injection Hget as Hget. subst o.
  exists tks, obj. repeat split; try assumption.
  - rewrite Hend.
    destruct (Z.ltb_spec (pos p') 0) as [Hneg|Hpos]; [|lia].
    unfold char_at in Hb.
    destruct (Z.ltb_spec (pos p') 0); [discriminate Hb|lia].
  - lia.
  - rewrite Hend. replace (pos p' + 1 - 1) with (pos p') by lia. exact Hb.
Qed.

Lemma jtok_parse_ok_closes_object_witness :
  exists (tks : list jtok_tkn_t) (obj : jtok_tkn_t),
    Some [tkn_empty_object] = Some tks /\ get_tkn tks 0 = Some obj /\
    type obj = JTOK_OBJECT /\
    0 < end_ obj <= Z.of_nat (strlen "{}") /\
    char_at "{}" (end_ obj - 1) = "}"%char.
Proof.
  apply (jtok_parse_ok_closes_object 8 jtok_parse_string jtok_parse_primitive
           absent_array_parser "{}" (blank_pool 1) 1 (Some [tkn_empty_object])).
  reflexivity.
Defined.

(** After a successful [jtok_parse] the first token is an OBJECT. *)
Lemma jtok_parse_ok_first_token :
  forall (MAX : Z) (sp pp : jtok_parser_t -> outcome)
         (ap : jtok_parser_t -> Z -> outcome)
         (text : string) (tokens tks : list jtok_tkn_t) (size_ : Z),
    jtok_parse MAX sp pp ap (Some text) (Some tokens) size_
    = Val (JTOK_PARSE_STATUS_OK, Some tks) ->
    exists obj : jtok_tkn_t,
      get_tkn tks 0 = Some obj /\ type obj = JTOK_OBJECT.
Proof.
  intros MAX sp pp ap text tokens tks size_ H.
  unfold jtok_parse in H.
  destruct (size_ <? 1); [discriminate H|].
  match type of H with
  | context [jtok_parse_object _ _ _ _ ?f ?p ?d] =>
      destruct (jtok_parse_object MAX sp pp ap f p d) as [[st p']| |] eqn:Hp;
        simpl in H; try discriminate H
  end.
  injection H as E1 E2. subst st.
  eapply jtok_parse_object_ok in Hp; [|reflexivity].
  simpl in Hp. destruct Hp as [_ [_ [obj [Hget [Hty _]]]]].
  unfold tokens_get in Hget. rewrite E2 in Hget. simpl in Hget.
  destruct (get_tkn tks 0) as [o|]; simpl in Hget; [|discriminate Hget].
  injection Hget as Hget. subst o. eauto.
Qed.

(** X10: after a successful [jtok_parse], [isValidJson] holds for the array
    with every count of 2 or more, whatever follows the object token: its
    test of the second token does not matter. *)
Theorem isValidJson_after_parse :
  forall (MAX : Z) (sp pp : jtok_parser_t -> outcome)
         (ap : jtok_parser_t -> Z -> outcome)
         (text : string) (tokens tks : list jtok_tkn_t) (size_ tcnt : Z)
         (t1 : jtok_tkn_t),
    jtok_parse MAX sp pp ap (Some text) (Some tokens) size_
    = Val (JTOK_PARSE_STATUS_OK, Some tks) ->
    get_tkn tks 1 = Some t1 ->
    2 <= tcnt ->
    isValidJson (Some tks) tcnt = Val true.
Proof.
  intros MAX sp pp ap text tokens tks size_ tcnt t1 H H1 Hcnt.
  destruct (jtok_parse_ok_first_token _ _ _ _ _ _ _ _ H) as [obj [Hobj Hty]].
  unfold isValidJson.
  assert (Hgt : (tcnt >? 1) = true) by lia. rewrite Hgt.
  rewrite Hobj, H1. simpl. rewrite Hty. simpl.
  destruct (tcnt =? 2).
  - destruct (JTOK_TYPE_eqb (type t1) JTOK_ARRAY); reflexivity.
  - destruct (tcnt >? 2); [|reflexivity].
    destruct (JTOK_TYPE_eqb (type t1) JTOK_STRING); reflexivity.
Qed.

Lemma isValidJson_after_parse_witness :
  isValidJson (Some [tkn_empty_object; blank_tkn]) 20 = Val true.
Proof.
  apply (isValidJson_after_parse 8 jtok_parse_string jtok_parse_primitive
           absent_array_parser "{}" (blank_pool 2)
           [tkn_empty_object; blank_tkn] 2 20 blank_tkn).
  - reflexivity.
  - reflexivity.
  - lia.
Defined.

(** X11: [json_parse] returns -1 for every text that [jtok_parse] accepts:
    the validity test cannot fail after a successful parse and the parse
    table is empty.  The results 0 and 1 do not occur for such a text, and
    the tokens are left in the array. *)
Theorem json_parse_accepted_text :
  forall (MAX : Z) (sp pp : jtok_parser_t -> outcome)
         (ap : jtok_parser_t -> Z -> outcome)
         (status_code : JTOK_PARSE_STATUS_t -> Z) (zero_type : JTOK_TYPE_t)
         (text : string) (tkns tks : list jtok_tkn_t) (t1 : jtok_tkn_t),
    jtok_parse MAX sp pp ap (Some text) (Some tkns) JSON_TKN_CNT
    = Val (JTOK_PARSE_STATUS_OK, Some tks) ->
    get_tkn tks 1 = Some t1 ->
    json_parse MAX sp pp ap status_code zero_type tkns (Some text)
    = Val (-1, tks).
Proof.
  intros MAX sp pp ap status_code zero_type text tkns tks t1 H H1.
  assert (Hv : isValidJson (Some tks) JSON_TKN_CNT = Val true).
  { destruct (jtok_parse_ok_first_token _ _ _ _ _ _ _ _ H)
      as [obj [Hobj Hty]].
    unfold isValidJson, JSON_TKN_CNT. simpl.
    rewrite Hobj, H1. simpl. rewrite Hty. simpl.
    destruct (JTOK_TYPE_eqb (type t1) JTOK_STRING); reflexivity. }
  unfold json_parse. rewrite H. cbn [bind of_option status_is_ok negb].
  rewrite Hv. reflexivity.
Qed.

Lemma json_parse_accepted_text_witness :
  json_parse 8 jtok_parse_string jtok_parse_primitive absent_array_parser
             (fun _ => 0) JTOK_PRIMITIVE (blank_pool 20) (Some "{}")
  = Val (-1, tkn_empty_object :: blank_pool 19).
Proof.
  apply (json_parse_accepted_text 8 jtok_parse_string jtok_parse_primitive
           absent_array_parser (fun _ => 0) JTOK_PRIMITIVE "{}"
           (blank_pool 20) (tkn_empty_object :: blank_pool 19) blank_tkn).
  - reflexivity.
  - reflexivity.
Defined.

(** ** The outermost object up to its first key *)

(** The token that the object parser fills at its entry. *)
Lemma jtok_parse_object_enter_token :
  forall (MAX : Z) (sp pp : jtok_parser_t -> outcome)
         (ap : jtok_parser_t -> Z -> outcome)
         (fuel : nat) (p : jtok_parser_t)
         (t0 : jtok_tkn_t) (ts : list jtok_tkn_t),
    0 <= MAX ->
    tkn_pool p = Some (t0 :: ts) ->
    toknext p = 0 ->
    1 <= pool_size p ->
    char_at (json_str p) (pos p) = "{"%char ->
    jtok_parse_object MAX sp pp ap fuel p 0
    = object_loop sp pp ap
        (fun p' d' =>
           match fuel with
           | O => OutOfFuel
           | S fuel' => jtok_parse_object MAX sp pp ap fuel' p' d'
           end)
        0 (pos p) (json_str p) (json_len p) 0
        fuel JTOK_PARSE_STATUS_OK OBJECT_KEY
        (mk_parser (pos p + 1) 1 0 (json_str p) (json_len p) NO_CHILD_IDX
           (Some (mk_tkn JTOK_OBJECT (pos p) INVALID_ARRAY_INDEX 0
                         (toksuper p) NO_SIBLING_IDX (Some (json_str p))
                  :: ts))
           (pool_size p)).
Proof.
  intros MAX sp pp ap fuel p t0 ts HM Hpool Hnext Hsize Hc.
  assert (Hgt : (0 >? MAX) = false) by lia.
  assert (Hfull : (0 =? pool_size p) = false) by lia.
  destruct p as [ps tn tsup jsn jl lc tp psz]. simpl in *. subst tn tp.
  destruct fuel; cbn [jtok_parse_object];
    simpl; rewrite Hgt, Hc; simpl;
    unfold jtok_alloc_token; simpl; rewrite Hfull; simpl;
    reflexivity.
Qed.

(** [jtok_parse] on leading whitespace, an opening brace and a run of
    skipped bytes: the loop of the object parser, a key expected, at the
    byte after the run. *)
Lemma jtok_parse_to_first_key :
  forall (MAX : Z) (sp pp : jtok_parser_t -> outcome)
         (ap : jtok_parser_t -> Z -> outcome)
         (ws sk tail : string)
         (t0 : jtok_tkn_t) (ts : list jtok_tkn_t) (size_ : Z),
    0 <= MAX -> 1 <= size_ -> 1 <= to_unsigned_int size_ ->
    all_chars isspace ws = true ->
    all_chars is_skipped sk = true ->
    let text := ws ++ String "{" (sk ++ tail) in
    let here := Z.of_nat (String.length ws) + 1
                + Z.of_nat (String.length sk) in
    Z.of_nat (strlen text) = here + Z.of_nat (strlen tail) /\
    char_at text here = head_char tail /\
    jtok_parse MAX sp pp ap (Some text) (Some (t0 :: ts)) size_
    = (r <- object_loop sp pp ap
              (fun p' d' => jtok_parse_object MAX sp pp ap
                              (String.length text) p' d')
              0 (Z.of_nat (String.length ws)) text
              (Z.of_nat (strlen text)) 0
              (S (S (String.length ws + String.length tail)))
              JTOK_PARSE_STATUS_OK OBJECT_KEY
              (mk_parser here 1 0 text (Z.of_nat (strlen text)) NO_CHILD_IDX
                 (Some (mk_tkn JTOK_OBJECT (Z.of_nat (String.length ws))
                               INVALID_ARRAY_INDEX 0 NO_PARENT_IDX
                               NO_SIBLING_IDX (Some text) :: ts))
                 (to_unsigned_int size_)) ;;
       let '(status, parser) := r in Val (status, tkn_pool parser)).
Proof.
  intros MAX sp pp ap ws sk tail t0 ts size_ HM Hsize Hcap Hws Hsk text here.
  set (pre := ws ++ String "{" EmptyString).
  assert (Htext : text = pre ++ sk ++ tail).
  { unfold text, pre. clear. induction ws as [|a ws IH]; simpl; [reflexivity|].
    f_equal. exact IH. }
  assert (Hpre : String.length pre = S (String.length ws)).
  { unfold pre. rewrite string_length_append. simpl. lia. }
  assert (Hlen : Z.of_nat (strlen text) = here + Z.of_nat (strlen tail)).
  { unfold text, here.
    rewrite (strlen_append isspace) by (assumption || reflexivity).
    rewrite (strlen_cons "{") by discriminate.
    rewrite (strlen_append is_skipped) by (assumption || reflexivity).
    lia. }
  split; [exact Hlen|]. split.
  { assert (Hj : text = (pre ++ sk) ++ tail).
    { rewrite Htext. clear. induction pre as [|a pre IH]; simpl; [reflexivity|].
      f_equal. exact IH. }
    rewrite Hj.
    replace here with (Z.of_nat (String.length (pre ++ sk))).
    - apply char_at_append_length.
    - unfold here. rewrite string_length_append, Hpre. lia. }
  unfold jtok_parse.
  assert (Hlt : (size_ <? 1) = false) by lia. rewrite Hlt.
  assert (Hskip : skip_space text 0 = Z.of_nat (String.length ws)).
  { unfold text. rewrite skip_space_append; [lia | assumption | reflexivity]. }
  rewrite Hskip.
  rewrite jtok_parse_object_enter_token with (t0 := t0) (ts := ts);
    [ | exact HM | reflexivity | reflexivity | exact Hcap
      | simpl; unfold text; rewrite char_at_append_length; reflexivity ].
  cbn [pos json_str json_len pool_size toksuper set_pos jtok_new_parser].
  set (len := Z.of_nat (strlen text)) in *.
  assert (Hfuel : S (String.length text)
                  = (String.length sk
                     + S (S (String.length ws + String.length tail)))%nat).
  { rewrite Htext, !string_length_append, Hpre. lia. }
  rewrite Hfuel.
  assert (Hsk2 :
    forall op fuel p,
      pos p = Z.of_nat (String.length pre) ->
      object_loop sp pp ap op 0 (Z.of_nat (String.length ws)) text len 0
                  (String.length sk + fuel) JTOK_PARSE_STATUS_OK OBJECT_KEY p
      = object_loop sp pp ap op 0 (Z.of_nat (String.length ws)) text len 0
                    fuel JTOK_PARSE_STATUS_OK OBJECT_KEY
                    (set_pos p (pos p + Z.of_nat (String.length sk)))).
  { intros op fuel p Hp. rewrite Htext.
    apply object_loop_skips; [assumption | exact Hp | lia]. }
  rewrite Hsk2 by (cbn [pos]; rewrite Hpre; lia).
  unfold set_pos. cbn [pos toknext toksuper json_str json_len last_child
                       tkn_pool pool_size].
  unfold here. reflexivity.
Qed.

(** X12: the empty object.  With a capacity that [jtok_new_parser]
    receives as 1 or more, leading whitespace, an opening brace, skipped
    bytes and a closing brace are parsed with OK into one OBJECT token of
    size 0, from the opening brace to one past the closing brace; the other
    tokens of the array are not touched, and what follows the closing brace
    is not read. *)
Theorem jtok_parse_empty_object :
  forall (MAX : Z) (sp pp : jtok_parser_t -> outcome)
         (ap : jtok_parser_t -> Z -> outcome)
         (ws sk rest : string)
         (t0 : jtok_tkn_t) (ts : list jtok_tkn_t) (size_ : Z),
    0 <= MAX -> 1 <= size_ -> 1 <= to_unsigned_int size_ ->
    all_chars isspace ws = true ->
    all_chars is_skipped sk = true ->
    jtok_parse MAX sp pp ap
               (Some (ws ++ String "{" (sk ++ String "}" rest)))
               (Some (t0 :: ts)) size_
    = Val (JTOK_PARSE_STATUS_OK,
           Some (mk_tkn JTOK_OBJECT
                        (Z.of_nat (String.length ws))
                        (Z.of_nat (String.length ws) + 1
                         + Z.of_nat (String.length sk) + 1)
                        0 NO_PARENT_IDX NO_SIBLING_IDX
                        (Some (ws ++ String "{" (sk ++ String "}" rest)))
                 :: ts)).
Proof.
  intros MAX sp pp ap ws sk rest t0 ts size_ HM Hsize Hcap Hws Hsk.
  destruct (jtok_parse_to_first_key MAX sp pp ap ws sk (String "}" rest)
              t0 ts size_ HM Hsize Hcap Hws Hsk) as [Hlen [Hc Hparse]].
  rewrite Hparse. clear Hparse.
  rewrite strlen_cons in Hlen by discriminate.
  set (text := ws ++ String "{" (sk ++ String "}" rest)) in *.
  set (here := Z.of_nat (String.length ws) + 1
               + Z.of_nat (String.length sk)) in *.
  rewrite object_loop_return
    with (st := JTOK_PARSE_STATUS_OK)
         (p' := mk_parser here 1 NO_PARENT_IDX text (Z.of_nat (strlen text))
                  NO_CHILD_IDX
                  (Some (mk_tkn JTOK_OBJECT (Z.of_nat (String.length ws))
                                (here + 1) 0 NO_PARENT_IDX NO_SIBLING_IDX
                                (Some text) :: ts))
                  (to_unsigned_int size_)).
  - reflexivity.
  - cbn [pos]. lia.
  - cbn [pos]. rewrite Hc. discriminate.
  - unfold object_step. cbn [pos]. rewrite Hc. reflexivity.
Qed.

Lemma jtok_parse_empty_object_witness :
  jtok_parse 8 jtok_parse_string jtok_parse_primitive absent_array_parser
             (Some (" " ++ String "{" (" " ++ String "}" "x")))
             (Some (blank_tkn :: [blank_tkn])) 2
  = Val (JTOK_PARSE_STATUS_OK,
         Some (mk_tkn JTOK_OBJECT 1 4 0 NO_PARENT_IDX NO_SIBLING_IDX
                      (Some " { }x")
               :: [blank_tkn])).
Proof.
  refine (jtok_parse_empty_object 8 jtok_parse_string jtok_parse_primitive
            absent_array_parser " " " " "x" blank_tkn [blank_tkn] 2
            _ _ _ _ _).
  - lia.
  - lia.
  - vm_compute. discriminate.
  - reflexivity.
  - reflexivity.
Defined.

(** X13: an object that is not closed.  With a capacity that
    [jtok_new_parser] receives as 1 or more, leading whitespace, an opening
    brace and skipped bytes up to the end of the text give PARTIAL_TOKEN;
    the object token is left open, its end is [INVALID_ARRAY_INDEX]. *)
Theorem jtok_parse_unclosed_object :
  forall (MAX : Z) (sp pp : jtok_parser_t -> outcome)
         (ap : jtok_parser_t -> Z -> outcome)
         (ws sk : string)
         (t0 : jtok_tkn_t) (ts : list jtok_tkn_t) (size_ : Z),
    0 <= MAX -> 1 <= size_ -> 1 <= to_unsigned_int size_ ->
    all_chars isspace ws = true ->
    all_chars is_skipped sk = true ->
    jtok_parse MAX sp pp ap (Some (ws ++ String "{" sk))
               (Some (t0 :: ts)) size_
    = Val (JTOK_PARSE_STATUS_PARTIAL_TOKEN,
           Some (mk_tkn JTOK_OBJECT (Z.of_nat (String.length ws))
                        INVALID_ARRAY_INDEX 0 NO_PARENT_IDX NO_SIBLING_IDX
                        (Some (ws ++ String "{" sk))
                 :: ts)).
Proof.
  intros MAX sp pp ap ws sk t0 ts size_ HM Hsize Hcap Hws Hsk.
  assert (Hnil : sk ++ EmptyString = sk).
  { clear. induction sk as [|c sk IH]; simpl; [reflexivity|].
    f_equal. exact IH. }
  destruct (jtok_parse_to_first_key MAX sp pp ap ws sk EmptyString
              t0 ts size_ HM Hsize Hcap Hws Hsk) as [Hlen [Hc Hparse]].
  rewrite Hnil in *. rewrite Hparse. clear Hparse.
  cbn [object_loop pos]. simpl strlen in Hlen.
  match goal with
  | |- context [?a <? ?b] =>
      replace (a <? b) with false by (symmetry; apply Z.ltb_ge; lia)
  end.
  reflexivity.
Qed.

Lemma jtok_parse_unclosed_object_witness :
  jtok_parse 8 jtok_parse_string jtok_parse_primitive absent_array_parser
             (Some ("" ++ String "{" " ")) (Some (blank_tkn :: [])) 1
  = Val (JTOK_PARSE_STATUS_PARTIAL_TOKEN,
         Some (mk_tkn JTOK_OBJECT 0 INVALID_ARRAY_INDEX 0 NO_PARENT_IDX
                      NO_SIBLING_IDX (Some "{ ")
               :: [])).
Proof.
  refine (jtok_parse_unclosed_object 8 jtok_parse_string jtok_parse_primitive
            absent_array_parser "" " " blank_tkn [] 1 _ _ _ _ _).
  - lia.
  - lia.
  - vm_compute. discriminate.
  - reflexivity.
  - reflexivity.
Defined.

(** ** Errors of the object parser after the key *)

(** The pass of the loop body on a byte that does not fit the state. *)
Lemma object_step_misplaced :
  forall (sp pp : jtok_parser_t -> outcome)
         (ap op : jtok_parser_t -> Z -> outcome)
         (depth start0 : Z) (js : string) (oti : Z)
         (e : expecting_t) (p : jtok_parser_t) (super : jtok_tkn_t)
         (st : JTOK_PARSE_STATUS_t),
    misplaced_status e (char_at js (pos p)) = Some st ->
    tokens_get p (toksuper p) = Val super ->
    exists p',
      object_step sp pp ap op depth start0 js oti e p = Val (Next st e p') /\
      tkn_pool p' = tkn_pool p /\ status_is_ok st = false.
Proof.
  intros sp pp ap op depth start0 js oti e p super st H Hsuper.
  unfold object_step.
  destruct (char_at js (pos p)) as [[] [] [] [] [] [] [] []];
    destruct e;
    try (vm_compute in H; discriminate H);
    vm_compute in H; injection H as H; subst st;
    cbv beta iota zeta delta
        [Ascii.eqb Bool.eqb is_skipped is_primitive_lead andb orb negb
         dquote TAB CR LF N_of_ascii N_of_digits N.leb N.compare N.add
         N.mul Pos.compare Pos.compare_cont Pos.add Pos.succ Pos.mul
         step_lbrace step_lbracket step_rbrace step_quote step_colon
         step_comma step_primitive];
    try rewrite Hsuper; cbn [bind];
    eexists; (split; [reflexivity|]); split; reflexivity.
Qed.

(** X14: the errors of the object parser after the key.  When a colon, a
    value or a comma is expected and the byte met does not fit, the
    invocation ends with the status of [misplaced_status] and writes no
    token: VAL_NO_COLON for a value that starts with a brace, a bracket or a
    quote where the colon is expected, but KEY_NO_VAL for one that starts a
    primitive, and so on. *)
Theorem object_parser_misplaced_byte :
  forall (sp pp : jtok_parser_t -> outcome)
         (ap op : jtok_parser_t -> Z -> outcome)
         (depth start0 : Z) (js : string) (len oti : Z) (fuel : nat)
         (e : expecting_t) (p : jtok_parser_t) (super : jtok_tkn_t)
         (st : JTOK_PARSE_STATUS_t),
    pos p < len ->
    misplaced_status e (char_at js (pos p)) = Some st ->
    tokens_get p (toksuper p) = Val super ->
    exists p' : jtok_parser_t,
      object_loop sp pp ap op depth start0 js len oti (S (S fuel))
                  JTOK_PARSE_STATUS_OK e p
      = Val (st, p') /\
      st <> JTOK_PARSE_STATUS_OK /\
      tkn_pool p' = tkn_pool p.
Proof.
  intros sp pp ap op depth start0 js len oti fuel e p super st
         Hlen Hmis Hsuper.
  destruct (object_step_misplaced sp pp ap op depth start0 js oti e p super
              st Hmis Hsuper) as [p' [Hstep [Hpool Hst]]].
  assert (Hnul : char_at js (pos p) <> NUL).
  { intro E. rewrite E in Hmis. unfold misplaced_status in Hmis.
    rewrite Ascii.eqb_refl, orb_true_r in Hmis. discriminate Hmis. }
  exists (incr_pos p'). split; [|split].
  - apply object_loop_failed_step with (e' := e); assumption.
  - intro E. subst st. discriminate Hst.
  - exact Hpool.
Qed.

Lemma object_parser_misplaced_byte_witness :
  exists p' : jtok_parser_t,
    object_loop jtok_parse_string jtok_parse_primitive absent_array_parser
                (jtok_parse_object 8 jtok_parse_string jtok_parse_primitive
                                   absent_array_parser 10)
                0 0 text_missing_colon 8 0 2
                JTOK_PARSE_STATUS_OK OBJECT_COLON missing_colon_state
    = Val (JTOK_PARSE_STATUS_KEY_NO_VAL, p') /\
    JTOK_PARSE_STATUS_KEY_NO_VAL <> JTOK_PARSE_STATUS_OK /\
    tkn_pool p' = tkn_pool missing_colon_state.
Proof.
  apply (object_parser_misplaced_byte
           jtok_parse_string jtok_parse_primitive absent_array_parser
           (jtok_parse_object 8 jtok_parse_string jtok_parse_primitive
                              absent_array_parser 10)
           0 0 text_missing_colon 8 0 0 OBJECT_COLON missing_colon_state
           (mk_tkn JTOK_OBJECT 0 (-1) 1 (-1) (-1) (Some text_missing_colon))).
  - simpl. lia.
  - reflexivity.
  - reflexivity.
Defined.

(** ** Failures of the nested parsers *)

(** X15: a status other than OK that the string, primitive, array or nested
    object parser returns to the object parser is the status that the
    invocation returns: it is not replaced, and the loop does not go on. *)
Theorem object_parser_propagates_failure :
  forall (sp pp : jtok_parser_t -> outcome)
         (ap op : jtok_parser_t -> Z -> outcome)
         (depth start0 : Z) (js : string) (len oti : Z) (fuel : nat)
         (p p1 : jtok_parser_t) (super : jtok_tkn_t)
         (st : JTOK_PARSE_STATUS_t),
    pos p < len ->
    status_is_ok st = false ->
    tokens_get p (toksuper p) = Val super ->
    (char_at js (pos p) = "{"%char ->
     op p (depth + 1) = Val (st, p1) ->
     object_loop sp pp ap op depth start0 js len oti (S (S fuel))
                 JTOK_PARSE_STATUS_OK OBJECT_VALUE p
     = Val (st, incr_pos p1)) /\
    (char_at js (pos p) = "["%char ->
     ap p (depth + 1) = Val (st, p1) ->
     object_loop sp pp ap op depth start0 js len oti (S (S fuel))
                 JTOK_PARSE_STATUS_OK OBJECT_VALUE p
     = Val (st, incr_pos p1)) /\
    (char_at js (pos p) = dquote ->
     type super = JTOK_OBJECT ->
     sp p = Val (st, p1) ->
     object_loop sp pp ap op depth start0 js len oti (S (S fuel))
                 JTOK_PARSE_STATUS_OK OBJECT_KEY p
     = Val (st, incr_pos p1)) /\
    (char_at js (pos p) = dquote ->
     type super = JTOK_STRING -> size super = 0 ->
     sp p = Val (st, p1) ->
     object_loop sp pp ap op depth start0 js len oti (S (S fuel))
                 JTOK_PARSE_STATUS_OK OBJECT_VALUE p
     = Val (st, incr_pos p1)) /\
    (is_primitive_lead (char_at js (pos p)) = true ->
     type super = JTOK_STRING -> size super = 0 ->
     pp p = Val (st, p1) ->
     object_loop sp pp ap op depth start0 js len oti (S (S fuel))
                 JTOK_PARSE_STATUS_OK OBJECT_VALUE p
     = Val (st, incr_pos p1)).
Proof.
  intros sp pp ap op depth start0 js len oti fuel p p1 super st
         Hlen Hst Hsuper.
  repeat split.
  - intros Hc Hcall.
    apply object_loop_failed_step with (e' := OBJECT_VALUE); try assumption.
    + rewrite Hc. discriminate.
    + unfold object_step. rewrite Hc. simpl.
      unfold step_lbrace. rewrite Hcall. simpl. rewrite Hst. reflexivity.
  - intros Hc Hcall.
    apply object_loop_failed_step with (e' := OBJECT_VALUE); try assumption.
    + rewrite Hc. discriminate.
    + unfold object_step. rewrite Hc. simpl.
      unfold step_lbracket. rewrite Hcall. simpl. rewrite Hst. reflexivity.
  - intros Hc Hty Hcall.
    apply object_loop_failed_step with (e' := OBJECT_COLON); try assumption.
    + rewrite Hc. discriminate.
    + unfold object_step. rewrite Hc. simpl.
      rewrite Hsuper. simpl. rewrite Hty. simpl.
      rewrite Hcall. simpl. rewrite Hst. reflexivity.
  - intros Hc Hty Hsz Hcall.
    apply object_loop_failed_step with (e' := OBJECT_COMMA); try assumption.
    + rewrite Hc. discriminate.
    + unfold object_step. rewrite Hc. simpl.
      rewrite Hsuper. simpl. rewrite Hty, Hsz. simpl.
      rewrite Hcall. simpl. rewrite Hst. reflexivity.
  - intros Hc Hty Hsz Hcall.
    apply object_loop_failed_step with (e' := OBJECT_VALUE); try assumption.
    + apply primitive_lead_not_NUL, Hc.
    + rewrite object_step_primitive_lead by assumption.
      unfold step_primitive. rewrite Hsuper. simpl.
      rewrite Hty, Hsz. simpl. rewrite Hcall. simpl. rewrite Hst.
      reflexivity.
Qed.

Lemma object_parser_propagates_failure_witness :
  object_loop jtok_parse_string jtok_parse_primitive absent_array_parser
              (jtok_parse_object 8 jtok_parse_string jtok_parse_primitive
                                 absent_array_parser 10)
              0 0 text_bad_primitive 9 0 2
              JTOK_PARSE_STATUS_OK OBJECT_VALUE bad_primitive_state
  = Val (JTOK_PARSE_STATUS_INVALID_PRIMITIVE, incr_pos bad_primitive_state).
Proof.
  refine (proj2 (proj2 (proj2 (proj2
            (object_parser_propagates_failure
               jtok_parse_string jtok_parse_primitive absent_array_parser
               (jtok_parse_object 8 jtok_parse_string jtok_parse_primitive
                                  absent_array_parser 10)
               0 0 text_bad_primitive 9 0 0
               bad_primitive_state bad_primitive_state
               (mk_tkn JTOK_STRING 2 3 0 0 (-1) (Some text_bad_primitive))
               JTOK_PARSE_STATUS_INVALID_PRIMITIVE _ _ _)))) _ _ _ _).
  - simpl. lia.
  - reflexivity.
  - reflexivity.
  - reflexivity.
  - reflexivity.
  - reflexivity.
  - reflexivity.
Defined.

(** ** Key lookup and object comparison *)

(** X16: a result of [jtok_obj_has_key] other than [INVALID_ARRAY_INDEX]
    comes from a token that [jtok_tokcmp] finds equal to the needle, in an
    OBJECT of positive size; it is the index of that token divided by the
    size of a token, hence 0 in every array that has no more tokens than a
    token has bytes.  When no token compares equal the result is
    [INVALID_ARRAY_INDEX]. *)
Theorem jtok_obj_has_key_found :
  forall (sz : Z) (tkns : list jtok_tkn_t) (key_str : option string)
         (obj_idx r : Z),
    jtok_obj_has_key sz tkns key_str obj_idx = Val r ->
    r <> INVALID_ARRAY_INDEX ->
    exists (obj k : jtok_tkn_t) (i : Z),
      get_tkn tkns obj_idx = Some obj /\ type obj = JTOK_OBJECT /\
      0 < size obj /\
      get_tkn tkns i = Some k /\
      jtok_tokcmp key_str (Some k) = Val true /\
      r = i / sz /\
      (Z.of_nat (List.length tkns) <= sz -> r = 0).
Proof.
  intros sz tkns key_str obj_idx r H Hr.
  unfold jtok_obj_has_key in H.
  destruct (get_tkn tkns obj_idx) as [obj|] eqn:Hobj; simpl in H;
    [|discriminate H].
  destruct (JTOK_TYPE_eqb (type obj) JTOK_OBJECT) eqn:Hty;
    [|injection H as H; congruence].
  apply JTOK_TYPE_eqb_eq in Hty.
  destruct (Z.gtb_spec (size obj) 0) as [Hsz|Hsz];
    [|injection H as H; congruence].
  destruct (has_key_loop_result _ _ _ _ _ _ H) as [E|[i [k [Hk [Hcmp Hri]]]]];
    [congruence|].
  exists obj, k, i. repeat split; try assumption; try lia.
  intro Hlen. subst r. apply Z.div_small.
  unfold get_tkn in Hk.
  destruct (Z.ltb_spec i 0); [discriminate Hk|].
  assert (Hlt : (Z.to_nat i < List.length tkns)%nat).
  { apply nth_error_Some. congruence. }
  lia.
Qed.

Lemma jtok_obj_has_key_found_witness :
  exists (obj k : jtok_tkn_t) (i : Z),
    get_tkn [tkn_a1_object; tkn_a1_key; tkn_a1_value] 0 = Some obj /\
    type obj = JTOK_OBJECT /\ 0 < size obj /\
    get_tkn [tkn_a1_object; tkn_a1_key; tkn_a1_value] i = Some k /\
    jtok_tokcmp (Some "a") (Some k) = Val true /\
    0 = i / 40 /\
    (Z.of_nat (List.length [tkn_a1_object; tkn_a1_key; tkn_a1_value]) <= 40
     -> 0 = 0).
Proof.
  apply (jtok_obj_has_key_found 40
           [tkn_a1_object; tkn_a1_key; tkn_a1_value] (Some "a") 0 0).
  - reflexivity.
  - discriminate.
Defined.

(** X17: two objects that are the first tokens of their arrays and hold one
    key each compare equal by [jtok_toktokcmp_object] exactly when their
    values have the same type: the keys and the payloads of the values are
    not compared. *)
Theorem jtok_toktokcmp_object_single_key :
  forall (o1 k1 v1 o2 k2 v2 : jtok_tkn_t) (r1 r2 : list jtok_tkn_t),
    type o1 = JTOK_OBJECT -> type o2 = JTOK_OBJECT ->
    size o1 = 1 -> size o2 = 1 ->
    type k1 = JTOK_STRING -> type k2 = JTOK_STRING ->
    is_populated (type v1) = true ->
    jtok_toktokcmp_object (o1 :: k1 :: v1 :: r1) (o2 :: k2 :: v2 :: r2) 0 0
    = Val (JTOK_TYPE_eqb (type v1) (type v2)).
Proof.
  intros o1 k1 v1 o2 k2 v2 r1 r2 Ho1 Ho2 Hs1 Hs2 Hk1 Hk2 Hv1.
  assert (Hj : forall o : jtok_tkn_t,
             match json o, json o with
             | Some a, Some b => String.eqb a b
             | None, None => true
             | _, _ => false
             end = true).
  { intro o. destruct (json o); [apply String.eqb_refl|reflexivity]. }
  unfold jtok_toktokcmp_object, assert_pool, get_tkn. simpl.
  rewrite Ho1, Ho2, !Hj. simpl. rewrite Hs1, Hs2. simpl.
  rewrite Hk1. simpl. rewrite Hk2. simpl.
  unfold jtok_toktokcmp. rewrite Hk1, Hk2. simpl.
  destruct (JTOK_TYPE_eqb (type v1) (type v2)) eqn:E.
  - destruct (type v1); try discriminate Hv1; simpl; reflexivity.
  - reflexivity.
Qed.

Lemma jtok_toktokcmp_object_single_key_witness :
  jtok_toktokcmp_object
    (tkn_a1_object :: tkn_a1_key :: tkn_a1_value :: [])
    (mk_tkn JTOK_OBJECT 0 9 1 (-1) (-1) (Some text_ab)
     :: tkn_ab_key :: tkn_ab_value :: []) 0 0
  = Val false.
Proof.
  refine (jtok_toktokcmp_object_single_key
            tkn_a1_object tkn_a1_key tkn_a1_value
            (mk_tkn JTOK_OBJECT 0 9 1 (-1) (-1) (Some text_ab))
            tkn_ab_key tkn_ab_value [] [] _ _ _ _ _ _ _);
    reflexivity.
Defined.

(** ** The nesting limit *)

(** X18: an object met as a value when the depth of the invocation has
    reached the nesting limit is refused: the invocation ends with
    NEST_DEPTH_EXCEEDED and no token is taken for the nested object. *)
Theorem object_parser_nest_depth :
  forall (MAX : Z) (sp pp : jtok_parser_t -> outcome)
         (ap : jtok_parser_t -> Z -> outcome)
         (depth start0 : Z) (js : string) (len oti : Z) (fuel inner : nat)
         (p : jtok_parser_t),
    MAX <= depth ->
    pos p < len ->
    char_at js (pos p) = "{"%char ->
    object_loop sp pp ap (jtok_parse_object MAX sp pp ap inner)
                depth start0 js len oti (S (S fuel))
                JTOK_PARSE_STATUS_OK OBJECT_VALUE p
    = Val (JTOK_PARSE_STATUS_NEST_DEPTH_EXCEEDED, incr_pos p).
Proof.
  intros MAX sp pp ap depth start0 js len oti fuel inner p Hd Hlen Hc.
  assert (Hcall : jtok_parse_object MAX sp pp ap inner p (depth + 1)
                  = Val (JTOK_PARSE_STATUS_NEST_DEPTH_EXCEEDED, p)).
  { assert (Hgt : (depth + 1 >? MAX) = true) by lia.
    destruct inner; cbn [jtok_parse_object]; rewrite Hgt; reflexivity. }
  apply object_loop_failed_step with (e' := OBJECT_VALUE);
    try assumption; try reflexivity.
  - rewrite Hc. discriminate.
  - unfold object_step. rewrite Hc. simpl.
    unfold step_lbrace. rewrite Hcall. reflexivity.
Qed.

Lemma object_parser_nest_depth_witness :
  object_loop jtok_parse_string jtok_parse_primitive absent_array_parser
              (jtok_parse_object 0 jtok_parse_string jtok_parse_primitive
                                 absent_array_parser 10)
              0 0 text_primitive_object 10 0 2
              JTOK_PARSE_STATUS_OK OBJECT_VALUE
              (second_value_state text_primitive_object)
  = Val (JTOK_PARSE_STATUS_NEST_DEPTH_EXCEEDED,
         incr_pos (second_value_state text_primitive_object)).
Proof.
  apply (object_parser_nest_depth 0 jtok_parse_string jtok_parse_primitive
           absent_array_parser 0 0 text_primitive_object 10 0 0 10
           (second_value_state text_primitive_object)).
  - lia.
  - simpl. lia.
  - reflexivity.
Defined.


(** ** The first key, with the tokens *)

(** X19: with a capacity that [jtok_new_parser] receives as 1 or more,
    when the first byte after the opening brace of the outermost object and
    any skipped bytes is neither the double quote nor the closing brace,
    [jtok_parse] returns the status of [key_state_status] for that byte and
    leaves the object token open (its end is [INVALID_ARRAY_INDEX]); the
    other tokens are not touched. *)
Theorem jtok_parse_first_key_status :
  forall (MAX : Z) (sp pp : jtok_parser_t -> outcome)
         (ap : jtok_parser_t -> Z -> outcome)
         (ws sk rest : string) (c : ascii)
         (t0 : jtok_tkn_t) (ts : list jtok_tkn_t) (size_ : Z),
    0 <= MAX -> 1 <= size_ -> 1 <= to_unsigned_int size_ ->
    all_chars isspace ws = true ->
    all_chars is_skipped sk = true ->
    c <> NUL -> c <> dquote -> c <> "}"%char -> is_skipped c = false ->
    jtok_parse MAX sp pp ap
               (Some (ws ++ String "{" (sk ++ String c rest)))
               (Some (t0 :: ts)) size_
    = Val (key_state_status c,
           Some (mk_tkn JTOK_OBJECT (Z.of_nat (String.length ws))
                        INVALID_ARRAY_INDEX 0 NO_PARENT_IDX NO_SIBLING_IDX
                        (Some (ws ++ String "{" (sk ++ String c rest)))
                 :: ts)).
Proof.
  intros MAX sp pp ap ws sk rest c t0 ts size_
         HM Hsize Hcap Hws Hsk Hnul Hq Hb Hs.
  destruct (jtok_parse_to_first_key MAX sp pp ap ws sk (String c rest)
              t0 ts size_ HM Hsize Hcap Hws Hsk) as [Hlen [Hc Hparse]].
  rewrite Hparse. clear Hparse.
  rewrite strlen_cons in Hlen by assumption.
  cbn [head_char] in Hc.
  set (text := ws ++ String "{" (sk ++ String c rest)) in *.
  set (here := Z.of_nat (String.length ws) + 1
               + Z.of_nat (String.length sk)) in *.
  match goal with
  | |- context [object_loop _ _ _ ?o _ _ _ _ _ _ _ _ ?p] =>
      set (op := o); set (p2 := p)
  end.
  destruct (object_step_key_state sp pp ap op 0
              (Z.of_nat (String.length ws)) text 0 p2
              (mk_tkn JTOK_OBJECT (Z.of_nat (String.length ws))
                      INVALID_ARRAY_INDEX 0 NO_PARENT_IDX NO_SIBLING_IDX
                      (Some text)))
    as [p' [Hstep Hpool]].
  - cbn [pos p2]. rewrite Hc. exact Hq.
  - cbn [pos p2]. rewrite Hc. exact Hb.
  - cbn [pos p2]. rewrite Hc. exact Hs.
  - reflexivity.
  - cbn [pos p2] in Hstep. rewrite Hc in Hstep.
    rewrite object_loop_failed_step
      with (st := key_state_status c) (e' := OBJECT_KEY) (p' := p').
    + simpl. rewrite Hpool. reflexivity.
    + cbn [pos p2]. lia.
    + cbn [pos p2]. rewrite Hc. exact Hnul.
    + exact Hstep.
    + apply key_state_status_not_ok.
Qed.

Lemma jtok_parse_first_key_status_witness :
  jtok_parse 8 jtok_parse_string jtok_parse_primitive absent_array_parser
             (Some (" " ++ String "{" (" " ++ String "a" ":1}")))
             (Some (blank_tkn :: [])) 1
  = Val (JTOK_PARSE_STATUS_INVAL,
         Some (mk_tkn JTOK_OBJECT 1 INVALID_ARRAY_INDEX 0 NO_PARENT_IDX
                      NO_SIBLING_IDX (Some " { a:1}")
               :: [])).
Proof.
  refine (jtok_parse_first_key_status 8 jtok_parse_string
            jtok_parse_primitive absent_array_parser " " " " ":1}" "a"
            blank_tkn [] 1 _ _ _ _ _ _ _ _ _).
  - lia.
  - lia.
  - vm_compute. discriminate.
  - reflexivity.
  - reflexivity.
  - discriminate.
  - discriminate.
  - discriminate.
  - reflexivity.
Defined.

Ltac step_absurd H :=
  injection H; intros; subst; simpl in *; congruence.

(** X20: the state in which a value is expected is entered at a colon
    only, with the token taken last as the superior token, and is kept by
    the skipped bytes only: every value that is parsed with OK leaves it,
    whatever the string, primitive, array and nested object parsers do. *)
Theorem object_parser_value_state_entry :
  forall (sp pp : jtok_parser_t -> outcome)
         (ap op : jtok_parser_t -> Z -> outcome)
         (depth start0 : Z) (js : string) (oti : Z)
         (e : expecting_t) (p p' : jtok_parser_t),
    object_step sp pp ap op depth start0 js oti e p
    = Val (Next JTOK_PARSE_STATUS_OK OBJECT_VALUE p') ->
    (e = OBJECT_COLON /\ char_at js (pos p) = ":"%char /\
     p' = set_toksuper p (toknext p - 1)) \/
    (e = OBJECT_VALUE /\ is_skipped (char_at js (pos p)) = true /\ p' = p).
Proof.
  intros sp pp ap op depth start0 js oti e p p' H.
  unfold object_step in H.
  destruct (Ascii.eqb (char_at js (pos p)) "{") eqn:E1.
  { unfold step_lbrace in H. split_step H;
      step_absurd H. }
  destruct (Ascii.eqb (char_at js (pos p)) "[") eqn:E2.
  { unfold step_lbracket in H. split_step H;
      step_absurd H. }
  destruct (Ascii.eqb (char_at js (pos p)) "}") eqn:E3.
  { unfold step_rbrace in H. split_step H;
      step_absurd H. }
  destruct (Ascii.eqb (char_at js (pos p)) dquote) eqn:E4.
  { unfold step_quote in H. split_step H;
      step_absurd H. }
  destruct (is_skipped (char_at js (pos p))) eqn:E5.
  { injection H as H2 H3. subst. right. repeat split. }
  destruct (Ascii.eqb (char_at js (pos p)) ":") eqn:E6.
  { apply Ascii.eqb_eq in E6. unfold step_colon in H.
    destruct e; try discriminate H.
    injection H as H. subst p'. left. repeat split. exact E6. }
  destruct (Ascii.eqb (char_at js (pos p)) ",") eqn:E7.
  { unfold step_comma in H. split_step H;
      step_absurd H. }
  destruct (is_primitive_lead (char_at js (pos p))) eqn:E8.
  { unfold step_primitive in H. split_step H;
      step_absurd H. }
  discriminate H.
Qed.

Lemma object_parser_value_state_entry_witness :
  (OBJECT_COLON = OBJECT_COLON /\ char_at text_a1 (pos colon_state) = ":"%char /\
   set_toksuper colon_state 1
   = set_toksuper colon_state (toknext colon_state - 1)) \/
  (OBJECT_COLON = OBJECT_VALUE /\
   is_skipped (char_at text_a1 (pos colon_state)) = true /\
   set_toksuper colon_state 1 = colon_state).
Proof.
  refine (object_parser_value_state_entry
            jtok_parse_string jtok_parse_primitive absent_array_parser
            (jtok_parse_object 8 jtok_parse_string jtok_parse_primitive
                               absent_array_parser 10)
            0 0 text_a1 0 OBJECT_COLON colon_state
            (set_toksuper colon_state 1) _).
  reflexivity.
Defined.

(** X21: a capacity that is a multiple of [UINT_MAX + 1] passes the test of
    [jtok_parse] and reaches [jtok_new_parser] as a pool of size 0: the
    object parser finds no free token at the opening brace, the status is
    NOMEM and the token array is left as it was. *)
Theorem jtok_parse_capacity_truncated :
  forall (MAX : Z) (sp pp : jtok_parser_t -> outcome)
         (ap : jtok_parser_t -> Z -> outcome)
         (ws rest : string) (tokens : list jtok_tkn_t) (size_ : Z),
    0 <= MAX -> 1 <= size_ -> to_unsigned_int size_ = 0 ->
    all_chars isspace ws = true ->
    jtok_parse MAX sp pp ap (Some (ws ++ String "{" rest)) (Some tokens) size_
    = Val (JTOK_PARSE_STATUS_NOMEM, Some tokens).
Proof.
  intros MAX sp pp ap ws rest tokens size_ HM Hsize Hcap Hws.
  unfold jtok_parse.
  assert (Hlt : (size_ <? 1) = false) by lia. rewrite Hlt.
  rewrite skip_space_append; [| assumption | reflexivity].
  rewrite Hcap.
  assert (Hgt : (0 >? MAX) = false) by lia.
  cbn [jtok_parse_object]. 
  unfold jtok_new_parser, set_pos. cbn [pos tkn_pool json_str toknext pool_size].
  rewrite Z.add_0_l, char_at_append_length. cbn [head_char].
  simpl. rewrite Hgt. reflexivity.
Qed.

Lemma jtok_parse_capacity_truncated_witness :
  jtok_parse 8 jtok_parse_string jtok_parse_primitive absent_array_parser
             (Some (" " ++ String "{" "}")) (Some [blank_tkn]) 4294967296
  = Val (JTOK_PARSE_STATUS_NOMEM, Some [blank_tkn]).
Proof.
  refine (jtok_parse_capacity_truncated 8 jtok_parse_string
            jtok_parse_primitive absent_array_parser " " "}" [blank_tkn]
            4294967296 _ _ _ _).
  - lia.
  - lia.
  - reflexivity.
  - reflexivity.
Defined.
